(** * ManagerZone tools: the scout-report content script

    A shallow embedding of [src/content/scout-report.js] (the cached
    content script; the observer variant shares every function modelled
    here verbatim) together with the properties of its cache, parser,
    fetcher, skill-name normaliser and flag placement, of its popup
    message listener, and of the container scanner of the observer
    variant.

    Conventions of the embedding.
    - JavaScript strings are [string]s of 8-bit characters; case
      conversion and white space are the ASCII ones.
    - JavaScript numbers are integers ([Z]); [undefined] is a constructor
      of [value], or [None] where a field is a number or [undefined].
    - Browser built-ins are modelled by what they return: an HTML text
      is given by the document [DOMParser] builds from it (parsing as
      [text/html] never fails), [localStorage] is a finite map whose
      writes may be refused, [fetch] a server function together with a
      log of the requests issued, and [Date.now()] the reading the
      caller takes.
    - DOM elements that are mutated (table cells) are addressed by their
      position in the row and the row by its position in the table, so
      that two references to one element denote the same cell. *)

From Stdlib Require Import ZArith Ascii String List Bool Lia.
From stdpp Require Import gmap strings list fin_maps.

Set Warnings "-register-all".

Local Open Scope string_scope.
Local Open Scope Z_scope.
Local Open Scope list_scope.

(** ** Strings *)

Module JsString.

(** White space removed by [String.prototype.trim], restricted to the
    8-bit range: TAB, LF, VT, FF, CR and SPACE. *)
Definition is_ws (c : ascii) : bool :=
  let n := nat_of_ascii c in
  ((9 <=? n)%nat && (n <=? 13)%nat) || (n =? 32)%nat.

Definition lower_char (c : ascii) : ascii :=
  let n := nat_of_ascii c in
  if ((65 <=? n)%nat && (n <=? 90)%nat)%bool
  then ascii_of_nat (n + 32) else c.

Fixpoint trimStartL (l : list ascii) : list ascii :=
  match l with
  | [] => []
  | c :: r => if is_ws c then trimStartL r else l
  end.

Definition trimL (l : list ascii) : list ascii :=
  rev (trimStartL (rev (trimStartL l))).

(** [s.trim()] *)
Definition trim (s : string) : string :=
  string_of_list_ascii (trimL (list_ascii_of_string s)).

(** [s.toLowerCase()] *)
Definition toLowerCase (s : string) : string :=
  string_of_list_ascii (map lower_char (list_ascii_of_string s)).

Fixpoint startsWithL (p l : list ascii) : bool :=
  match p, l with
  | [], _ => true
  | _ :: _, [] => false
  | a :: p', b :: l' => if decide (a = b) then startsWithL p' l' else false
  end.

Fixpoint includesL (p l : list ascii) : bool :=
  startsWithL p l ||
  match l with
  | [] => false
  | _ :: l' => includesL p l'
  end.

(** [s.includes(p)] *)
Definition includes (s p : string) : bool :=
  includesL (list_ascii_of_string p) (list_ascii_of_string s).

(** Truthiness of a string: only the empty string is falsy. *)
Definition truthy (s : string) : bool :=
  match s with EmptyString => false | _ => true end.

(** A list of characters that does not begin with white space. *)
Definition starts_clean (l : list ascii) : Prop :=
  match l with [] => True | c :: _ => is_ws c = false end.

End JsString.

(** ** Skill-name normaliser *)

(** [SKILL_NAME_ALIAS]: the entries of the [Map], in source order. *)
Definition SKILL_NAME_ALIAS : list (string * string) :=
  [ ("play intelligence", "play intelligence");
    ("ball control", "ball control");
    ("aerial passing", "aerial passing");
    ("set plays", "set plays");
    ("goalkeeping", "keeping");
    ("keeping", "keeping");
    ("tackling", "tackling");
    ("passing", "passing");
    ("heading", "heading");
    ("shooting", "shooting");
    ("speed", "speed");
    ("stamina", "stamina");
    ("form", "form");
    ("experience", "experience") ].

(** [Map.prototype.get] on a map built from a list of entries whose keys
    are pairwise distinct. *)
Fixpoint Map_get (m : list (string * string)) (k : string) : option string :=
  match m with
  | [] => None
  | (k', v) :: m' => if decide (k' = k) then Some v else Map_get m' k
  end.

(** [norm(s)] on a string: [s.trim().toLowerCase()]. *)
Definition norm (s : string) : string :=
  JsString.toLowerCase (JsString.trim s).

(** [normalizeSkillName(name)]: [SKILL_NAME_ALIAS.get(key) || key]. *)
Definition normalizeSkillName (name : string) : string :=
  let key := norm name in
  match Map_get SKILL_NAME_ALIAS key with
  | Some v => if JsString.truthy v then v else key
  | None => key
  end.

(** ** DOM trees and the selectors the script uses *)

Module Dom.

(** A DOM node: a text node or an element with its local name (lower
    case, as the HTML parser stores it), attributes and children. *)
Inductive node : Type :=
| Text (data : string)
| Elem (tag : string) (attrs : list (string * string)) (children : list node).

Definition is_element (n : node) : bool :=
  match n with Text _ => false | Elem _ _ _ => true end.

Definition tagName (n : node) : option string :=
  match n with Text _ => None | Elem t _ _ => Some t end.

Fixpoint assoc (k : string) (l : list (string * string)) : option string :=
  match l with
  | [] => None
  | (k', v) :: l' => if decide (k' = k) then Some v else assoc k l'
  end.

(** [el.getAttribute(name)] *)
Definition getAttribute (name : string) (n : node) : option string :=
  match n with Text _ => None | Elem _ a _ => assoc name a end.

(** Splitting an attribute value on white space. *)
Fixpoint tokens_go (cur : list ascii) (l : list ascii) : list string :=
  let flush := match cur with
               | [] => []
               | _ => [string_of_list_ascii (rev cur)]
               end in
  match l with
  | [] => flush
  | c :: r => if JsString.is_ws c then flush ++ tokens_go [] r
              else tokens_go (c :: cur) r
  end.

(** [el.classList] *)
Definition classList (n : node) : list string :=
  match getAttribute "class" n with
  | Some v => tokens_go [] (list_ascii_of_string v)
  | None => []
  end.

(** [node.textContent]: the text of all descendants, in document order. *)
Fixpoint textContent (n : node) : string :=
  match n with
  | Text s => s
  | Elem _ _ ch => fold_right (fun c acc => textContent c ++ acc)%string "" ch
  end.

(** An element together with the local names of its ancestors, nearest
    first: what a selector with a combinator needs to see. *)
Record located : Type := Located { ancestors : list string; element : node }.

(** The proper descendant elements of [n], in document order. *)
Fixpoint descendants (anc : list string) (n : node) : list located :=
  match n with
  | Text _ => []
  | Elem t _ ch =>
      flat_map (fun c =>
                  (if is_element c then [Located (t :: anc) c] else [])
                    ++ descendants (t :: anc) c) ch
  end.

(** The selectors of [scout-report.js] that are evaluated on the scout
    report. *)
Inductive selector : Type :=
| SelTag (t : string)              (* [t]        *)
| SelChild (p t : string)          (* [p > t]    *)
| SelDescendant (a t : string)     (* [a t]      *)
| SelClass (c : string).           (* [.c]       *)

Definition matches (s : selector) (l : located) : bool :=
  match s with
  | SelTag t => bool_decide (tagName (element l) = Some t)
  | SelChild p t =>
      bool_decide (tagName (element l) = Some t)
      && bool_decide (head (ancestors l) = Some p)
  | SelDescendant a t =>
      bool_decide (tagName (element l) = Some t)
      && bool_decide (a ∈ ancestors l)
  | SelClass c => bool_decide (c ∈ classList (element l))
  end.

(** [el.querySelectorAll(s)] and [el.querySelector(s)]. *)
Definition querySelectorAll (s : selector) (l : located) : list located :=
  List.filter (matches s) (descendants (ancestors l) (element l)).

Definition querySelector (s : selector) (l : located) : option located :=
  head (querySelectorAll s l).

(** [doc.querySelectorAll(s)], [doc] given by its document element. *)
Definition document_querySelectorAll (s : selector) (doc : node)
  : list located :=
  List.filter (matches s)
    ((if is_element doc then [Located [] doc] else [])
       ++ descendants [] doc).

End Dom.

(** ** Scout-report parser *)

(** The object [{ highest, lowest, starsHigh, starsLow }]; a star count
    is a number or [undefined]. *)
Record ScoutRecord : Type := mkScout {
  highest : list string;
  lowest : list string;
  starsHigh : option Z;
  starsLow : option Z
}.

Definition emptyScout : ScoutRecord := mkScout [] [] None None.

(** [/potential|youth training speed/i.test(t)] *)
Definition generic_entry (t : string) : bool :=
  let t' := JsString.toLowerCase t in
  JsString.includes t' "potential"
  || JsString.includes t' "youth training speed".

(** [dd.querySelector("li > strong")?.textContent?.trim().toLowerCase()] *)
Definition dd_title (dd : Dom.located) : option string :=
  match Dom.querySelector (Dom.SelChild "li" "strong") dd with
  | Some e => Some (JsString.toLowerCase
                      (JsString.trim (Dom.textContent (Dom.element e))))
  | None => None
  end.

(** The [skills] array computed for one [dd]. *)
Definition dd_skills (dd : Dom.located) : list string :=
  List.filter (fun t => JsString.truthy t && negb (generic_entry t))
    (map (fun li => JsString.trim (Dom.textContent (Dom.element li)))
       (Dom.querySelectorAll (Dom.SelDescendant "ul" "li") dd)).

(** [litCount] computed for one [dd]. *)
Definition dd_litCount (dd : Dom.located) : option Z :=
  match Dom.querySelector (Dom.SelClass "stars") dd with
  | Some starContainer =>
      Some (Z.of_nat (length (Dom.querySelectorAll (Dom.SelClass "lit")
                                starContainer)))
  | None => None
  end.

(** One iteration of the [for (const dd of dds)] loop. *)
Definition parse_step (acc : ScoutRecord) (dd : Dom.located) : ScoutRecord :=
  match dd_title dd with
  | None => acc
  | Some title =>
      if negb (JsString.truthy title) then acc
      else if JsString.includes title "highest" then
        mkScout (dd_skills dd) (lowest acc) (dd_litCount dd) (starsLow acc)
      else if JsString.includes title "lowest" then
        mkScout (highest acc) (dd_skills dd) (starsHigh acc) (dd_litCount dd)
      else acc
  end.

(** [parseScoutHTML(htmlText)], on the document that [DOMParser] builds
    from [htmlText]. *)
Definition parseScoutHTML (doc : Dom.node) : ScoutRecord :=
  fold_left parse_step
    (Dom.document_querySelectorAll (Dom.SelTag "dd") doc) emptyScout.

(** ** JavaScript values and JSON *)

Module Js.

Inductive value : Type :=
| VUndefined
| VNull
| VBool (b : bool)
| VNum (n : Z)
| VStr (s : string)
| VArr (items : list value)
| VObj (props : list (string * value)).

(** ToBoolean *)
Definition truthy (v : value) : bool :=
  match v with
  | VUndefined | VNull => false
  | VBool b => b
  | VNum n => negb (n =? 0)
  | VStr s => JsString.truthy s
  | VArr _ | VObj _ => true
  end.

Fixpoint lookup_prop (k : string) (ps : list (string * value)) : value :=
  match ps with
  | [] => VUndefined
  | (k', v) :: ps' => if decide (k' = k) then v else lookup_prop k ps'
  end.

(** [v.k] for the property names the script reads ([expires],
    [scoutData], [highest], [lowest], [starsHigh], [starsLow]), none of
    which is a built-in property: [None] is the [TypeError] raised on
    [undefined] and [null]. *)
Definition get_prop (v : value) (k : string) : option value :=
  match v with
  | VUndefined | VNull => None
  | VObj ps => Some (lookup_prop k ps)
  | _ => Some VUndefined
  end.

(** ToNumber, [None] standing for NaN.  The script stores only numbers
    where it later compares; strings, arrays and objects, whose
    conversion parses a numeric literal, are taken as NaN. *)
Definition toNumber (v : value) : option Z :=
  match v with
  | VNum n => Some n
  | VBool b => Some (if b then 1 else 0)
  | VNull => Some 0
  | _ => None
  end.

(** [a > v] for a number [a]. *)
Definition num_gt (a : Z) (v : value) : bool :=
  match toNumber v with
  | Some b => b <? a
  | None => false
  end.

(** The value denoted by the text [JSON.stringify(v)]: properties whose
    value is [undefined] are omitted, [undefined] array items become
    [null]. *)
Fixpoint json_of (v : value) : value :=
  match v with
  | VArr l =>
      VArr (map (fun x => match x with
                          | VUndefined => VNull
                          | _ => json_of x
                          end) l)
  | VObj ps =>
      VObj (flat_map (fun p : string * value => let (k, x) := p in
                               match x with
                               | VUndefined => []
                               | _ => [(k, json_of x)]
                               end) ps)
  | _ => v
  end.

(** A string held by [localStorage], seen through [JSON.parse]: the
    JSON text of a value, the empty string, or any other string. *)
Inductive text : Type :=
| JsonText (v : value)
| EmptyText
| MalformedText.

(** [JSON.stringify(v)] for an object or array [v]. *)
Definition JSON_stringify (v : value) : text := JsonText (json_of v).

(** [JSON.parse(t)]; [None] is the [SyntaxError]. *)
Definition JSON_parse (t : text) : option value :=
  match t with
  | JsonText v => Some v
  | EmptyText | MalformedText => None
  end.

Definition text_truthy (t : text) : bool :=
  match t with EmptyText => false | _ => true end.

End Js.

(** ** localStorage *)

Module LocalStorage.

(** The stored items, and whether the browser refuses further writes
    (quota exhausted): [setItem] then raises. *)
Record t : Type := mk {
  items : gmap string Js.text;
  quotaExceeded : bool
}.

Definition getItem (k : string) (st : t) : option Js.text := items st !! k.

Definition setItem (k : string) (v : Js.text) (st : t) : option t :=
  if quotaExceeded st then None
  else Some (mk (<[k := v]> (items st)) (quotaExceeded st)).

Definition removeItem (k : string) (st : t) : t :=
  mk (delete k (items st)) (quotaExceeded st).

End LocalStorage.

(** ** Scout cache *)

Definition CACHE_KEY_PREFIX : string := "mz-scout-".
Definition CACHE_VERSION : string := "v1".
Definition CACHE_EXPIRY_DAYS : Z := 30.

(** [getCacheKey(pid)] *)
Definition getCacheKey (pid : string) : string :=
  (CACHE_KEY_PREFIX ++ CACHE_VERSION ++ "-" ++ pid)%string.

(** [getCachedScoutData(pid)], with [now] the reading of [Date.now()].
    Every exception is caught and turned into [null]. *)
Definition getCachedScoutData (pid : string) (now : Z) (st : LocalStorage.t)
  : Js.value * LocalStorage.t :=
  let key := getCacheKey pid in
  match LocalStorage.getItem key st with
  | None => (Js.VNull, st)
  | Some cached =>
      if negb (Js.text_truthy cached) then (Js.VNull, st)
      else
        match Js.JSON_parse cached with
        | None => (Js.VNull, st)
        | Some data =>
            match Js.get_prop data "expires" with
            | None => (Js.VNull, st)
            | Some expires =>
                if Js.truthy expires && Js.num_gt now expires
                then (Js.VNull, LocalStorage.removeItem key st)
                else match Js.get_prop data "scoutData" with
                     | Some scoutData => (scoutData, st)
                     | None => (Js.VNull, st)
                     end
            end
        end
  end.

(** [setCachedScoutData(pid, scoutData)]; [now_expiry] and [now_cached]
    are the two readings of [Date.now()], in the order the function
    takes them.  A refused write is caught and ignored. *)
Definition setCachedScoutData (pid : string) (scoutData : Js.value)
    (now_expiry now_cached : Z) (st : LocalStorage.t) : LocalStorage.t :=
  let key := getCacheKey pid in
  let expiryTime := now_expiry + CACHE_EXPIRY_DAYS * 24 * 60 * 60 * 1000 in
  let cacheEntry :=
    Js.VObj [ ("scoutData", scoutData);
              ("expires", Js.VNum expiryTime);
              ("cached", Js.VNum now_cached) ] in
  match LocalStorage.setItem key (Js.JSON_stringify cacheEntry) st with
  | Some st' => st'
  | None => st
  end.

(** The object literal [{ highest, lowest, starsHigh, starsLow }]. *)
Definition star_value (s : option Z) : Js.value :=
  match s with Some n => Js.VNum n | None => Js.VUndefined end.

Definition value_of_record (r : ScoutRecord) : Js.value :=
  Js.VObj [ ("highest", Js.VArr (map Js.VStr (highest r)));
            ("lowest", Js.VArr (map Js.VStr (lowest r)));
            ("starsHigh", star_value (starsHigh r));
            ("starsLow", star_value (starsLow r)) ].

(** What a consumer destructuring [{ highest, lowest, starsHigh,
    starsLow }] from [v] reads. *)
Definition reads_as (v : Js.value) (r : ScoutRecord) : Prop :=
  Js.get_prop v "highest" = Some (Js.VArr (map Js.VStr (highest r)))
  ∧ Js.get_prop v "lowest" = Some (Js.VArr (map Js.VStr (lowest r)))
  ∧ Js.get_prop v "starsHigh" = Some (star_value (starsHigh r))
  ∧ Js.get_prop v "starsLow" = Some (star_value (starsLow r)).

(** ** Scout fetcher *)

(** [scoutUrl(pid)] *)
Definition scoutUrl (pid : string) : string :=
  ("https://www.managerzone.com/ajax.php?p=players&sub=scout_report&pid="
     ++ pid ++ "&sport=soccer")%string.

(** What [fetch] resolves to: a rejection (network failure), or a
    response with its status and its body, the body given by the document
    the HTML parser builds from it. *)
Inductive response : Type :=
| NetworkFailure
| HttpResponse (status : Z) (body : Dom.node).

(** [res.ok] *)
Definition response_ok (status : Z) : bool :=
  (200 <=? status) && (status <=? 299).

(** Settlement of the promise an [async] function returns. *)
Inductive settled (A : Type) : Type :=
| Fulfilled (a : A)
| RejectedHttp (status : Z)      (* [new Error(`HTTP ${res.status}`)] *)
| RejectedNetwork.               (* the rejection of [fetch] itself *)
Arguments Fulfilled {A} a.
Arguments RejectedHttp {A} status.
Arguments RejectedNetwork {A}.

(** The part of the browser the fetcher acts on: the storage and the
    requests issued so far, oldest first. *)
Record World : Type := mkWorld {
  localStorage : LocalStorage.t;
  requests : list string
}.

(** The three readings of [Date.now()] one call of [fetchScout] may take:
    in the cache lookup, then twice when storing. *)
Record Clock : Type := mkClock {
  at_lookup : Z;
  at_expiry : Z;
  at_cached : Z
}.

Section Fetcher.

(** The server behind [fetch]. *)
Variable server : string → response.

(** [fetchScout(pid)], run to completion. *)
Definition fetchScout (pid : string) (clk : Clock) (w : World)
  : settled Js.value * World :=
  let (cachedData, st) :=
    getCachedScoutData pid (at_lookup clk) (localStorage w) in
  if Js.truthy cachedData then (Fulfilled cachedData, mkWorld st (requests w))
  else
    let sent := requests w ++ [scoutUrl pid] in
    match server (scoutUrl pid) with
    | NetworkFailure => (RejectedNetwork, mkWorld st sent)
    | HttpResponse status body =>
        if negb (response_ok status)
        then (RejectedHttp status, mkWorld st sent)
        else
          let scoutData := value_of_record (parseScoutHTML body) in
          (Fulfilled scoutData,
           mkWorld (setCachedScoutData pid scoutData
                      (at_expiry clk) (at_cached clk) st) sent)
    end.

End Fetcher.

(** ** Skill table *)

(** A [td] of a skills-table row: its [width] attribute and its child
    nodes.  A row ([tr]) is the list of its children, all of them [td]
    elements, and the table ([.player_skills]) is the list of its rows,
    in document order.  Cells hold markup without rows of their own, so
    that the rows and cells reached by [.player_skills tr] and
    [:scope > td] are exactly these.  What lies above the table matters
    to one selector only, [td:first-child .clippable], and is given where
    that selector is evaluated. *)
Record Cell : Type := mkCell {
  cell_width : option string;
  cell_content : list Dom.node
}.

Abbreviation Row := (list Cell).
Abbreviation Table := (list Row).

Definition td_node (c : Cell) : Dom.node :=
  Dom.Elem "td"
    (match cell_width c with Some w => [("width", w)] | None => [] end)
    (cell_content c).

Definition is_clippable (n : Dom.node) : bool :=
  bool_decide ("clippable" ∈ Dom.classList n).

Definition is_td (n : Dom.node) : bool :=
  bool_decide (Dom.tagName n = Some "td").

(** The elements below [n] that [td:first-child .clippable] matches, in
    document order.  The selector is matched against the whole document,
    not against the row it is evaluated on: an element matches when it
    has the class and some ancestor of it, wherever that ancestor sits,
    is a [td] that is the first element child of its parent.  [under]
    tells whether [n] or an ancestor of [n] is such a [td]; [first] is
    true until the first element child has been passed. *)
Fixpoint nameSpans (under : bool) (n : Dom.node) {struct n} : list Dom.node :=
  match n with
  | Dom.Text _ => []
  | Dom.Elem _ _ ch =>
      (fix children (first : bool) (l : list Dom.node) {struct l}
         : list Dom.node :=
         match l with
         | [] => []
         | c :: l' =>
             (if under && is_clippable c then [c] else [])
               ++ nameSpans (under || (first && is_td c)) c
               ++ children (first && negb (Dom.is_element c)) l'
         end) true ch
  end.

(** The matches inside the cell at position [j] of a row: the cell is a
    first child when [j] is 0; [nested] tells whether the row lies below
    a [td] that is the first element child of its parent (a skills table
    placed in the first cell of a table of the page layout). *)
Definition cellSpans (nested : bool) (j : nat) (td : Cell) : list Dom.node :=
  nameSpans (nested || bool_decide (j = 0%nat)) (td_node td).

(** The matches of [td:first-child .clippable] among the descendants of
    a row, in document order. *)
Definition rowSpans (nested : bool) (tr : Row) : list Dom.node :=
  concat (imap (cellSpans nested) tr).

(** [tr.querySelector("td:first-child .clippable")] followed by
    [norm(nameSpan.textContent)]: the key under which the row is filed,
    [None] when the row has no name span. *)
Definition rowName (nested : bool) (tr : Row) : option string :=
  match head (rowSpans nested tr) with
  | Some nameSpan => Some (norm (Dom.textContent nameSpan))
  | None => None
  end.

(** ** Flag injection *)

Inductive color : Type := green | yellow | red.

(** [FLAG_IMG[color]] *)
Definition FLAG_IMG (c : color) : string :=
  match c with
  | green => "img/flag_green.png"
  | yellow => "img/flag_yellow.png"
  | red => "img/flag_red.png"
  end.

(** [flagImg(color)] *)
Definition flagImg (c : color) : Dom.node :=
  Dom.Elem "img"
    [ ("src", FLAG_IMG c); ("width", "6"); ("height", "10"); ("alt", "");
      ("style", "vertical-align: middle;") ] [].

(** Positions in [l], counted from [i], of the elements satisfying [p]. *)
Fixpoint positions {A} (p : A → bool) (i : nat) (l : list A) : list nat :=
  match l with
  | [] => []
  | x :: l' => (if p x then [i] else []) ++ positions p (S i) l'
  end.

Definition width_6_or_7 (c : Cell) : bool :=
  bool_decide (cell_width c = Some "7") || bool_decide (cell_width c = Some "6").

(** [getFlagCells(tr)]: the cells are returned by position in the row. *)
Definition getFlagCells (tr : Row) : list nat :=
  if (4 <=? length tr)%nat then [1; 2; 3]%nat
  else take 3 (positions width_6_or_7 0 tr).

(** [td.innerHTML = ""] and [td.appendChild(n)] *)
Definition clearCell (c : Cell) : Cell := mkCell (cell_width c) [].
Definition appendChild (n : Dom.node) (c : Cell) : Cell :=
  mkCell (cell_width c) (cell_content c ++ [n]).

(** [clearFlagCells(cells)] *)
Definition clearFlagCells (cells : list nat) (tr : Row) : Row :=
  fold_left (fun r j => alter clearCell j r) cells tr.

(** [setFlagsInCells(cells, color, count)] *)
Definition setFlagsInCells (cells : list nat) (c : color) (count : nat)
    (tr : Row) : Row :=
  fold_left
    (fun r i => match cells !! i with
                | Some j => alter (appendChild (flagImg c)) j r
                | None => r
                end)
    (seq 0 (Nat.min count (length cells)))
    (clearFlagCells cells tr).

(** [highCount]: the immediately applied arrow function on [starsHigh]. *)
Definition highCount (stars : option Z) : nat :=
  match stars with
  | Some 4 => 3%nat
  | Some 3 => 2%nat
  | Some 2 => 1%nat
  | _ => 0%nat
  end.

(** [lowSpec]: [{ color, count }] or [null]. *)
Definition lowSpec (stars : option Z) : option (color * nat) :=
  match stars with
  | Some 2 => Some (yellow, 1%nat)
  | Some 1 => Some (red, 1%nat)
  | _ => None
  end.

(** The [nameToRows] map of [applyFlagsToContainer], rows given by
    position; [i] is the position of the first row of [rows]. *)
Fixpoint nameToRows_from (nested : bool) (i : nat) (rows : Table)
    (m : gmap string (list nat)) : gmap string (list nat) :=
  match rows with
  | [] => m
  | tr :: rows' =>
      nameToRows_from nested (S i) rows'
        (match rowName nested tr with
         | None => m
         | Some key => <[key := default [] (m !! key) ++ [i]]> m
         end)
  end.

Definition nameToRows (nested : bool) (rows : Table)
  : gmap string (list nat) :=
  nameToRows_from nested 0 rows ∅.

(** The body of the high pass for one row. *)
Definition placeHigh (count : nat) (tr : Row) : Row :=
  setFlagsInCells (getFlagCells tr) green count tr.

(** The body of the low pass for one row. *)
Definition placeLow (spec : color * nat) (tr : Row) : Row :=
  let cells := getFlagCells tr in
  setFlagsInCells cells (fst spec) (snd spec) (clearFlagCells cells tr).

(** One of the two [for (const skill of ...)] loops: [body] is run on
    every row filed under the normalised skill name. *)
Definition flagPass (m : gmap string (list nat)) (body : Row → Row)
    (skills : list string) (container : Table) : Table :=
  fold_left
    (fun t skill =>
       match m !! norm skill with
       | None => t
       | Some trs => fold_left (fun t' tr => alter body tr t') trs t
       end)
    skills container.

(** [applyFlagsToContainer(container, highest, lowest, starsHigh,
    starsLow)]: the skills table before and after; [nested] is the
    position of the table in the page, as for [cellSpans]. *)
Definition applyFlagsToContainer (nested : bool) (container : Table)
    (highest lowest : list string) (starsHigh starsLow : option Z) : Table :=
  match container with
  | [] => container
  | _ =>
      let m := nameToRows nested container in
      let t1 :=
        if (0 <? highCount starsHigh)%nat
        then flagPass m (placeHigh (highCount starsHigh)) highest container
        else container in
      match lowSpec starsLow with
      | Some spec => flagPass m (placeLow spec) lowest t1
      | None => t1
      end
  end.

(** ** Vocabulary of the parser properties *)

(** How the loop of [parseScoutHTML] treats one [dd]: the test for
    "highest" comes first, so a title holding both words is a "highest"
    one. *)
Inductive heading : Type := Highest | Lowest | Unrecognised.

Global Instance heading_eq_dec : EqDecision heading.
Proof. solve_decision. Defined.

Definition dd_heading (dd : Dom.located) : heading :=
  match dd_title dd with
  | None => Unrecognised
  | Some title =>
      if JsString.includes title "highest" then Highest
      else if JsString.includes title "lowest" then Lowest
      else Unrecognised
  end.

(** The heading text of the block contains [w], case-insensitively. *)
Definition title_has (w : string) (dd : Dom.located) : bool :=
  match dd_title dd with
  | Some title => JsString.includes title w
  | None => false
  end.

Definition skills_of (h : heading) (r : ScoutRecord) : list string :=
  match h with Highest => highest r | _ => lowest r end.

Definition stars_of (h : heading) (r : ScoutRecord) : option Z :=
  match h with Highest => starsHigh r | _ => starsLow r end.

(** The [dd] elements of a document, in document order. *)
Definition dds (doc : Dom.node) : list Dom.located :=
  Dom.document_querySelectorAll (Dom.SelTag "dd") doc.

(** "When two or more blocks have a heading containing [highest], the
    first of them fills [highest] and [starsHigh] and the later ones are
    ignored", and the same for [lowest]. *)
Definition first_heading_wins : Prop :=
  ∀ (doc : Dom.node) (pre post : list Dom.located) (d : Dom.located),
    dds doc = pre ++ d :: post →
    (title_has "highest" d = true →
     Forall (fun d' => title_has "highest" d' = false) pre →
     Exists (fun d' => title_has "highest" d' = true) post →
     highest (parseScoutHTML doc) = dd_skills d
     ∧ starsHigh (parseScoutHTML doc) = dd_litCount d)
    ∧ (title_has "lowest" d = true →
       Forall (fun d' => title_has "lowest" d' = false) pre →
       Exists (fun d' => title_has "lowest" d' = true) post →
       lowest (parseScoutHTML doc) = dd_skills d
       ∧ starsLow (parseScoutHTML doc) = dd_litCount d).

(** A star count is absent or lies between [lo] and [hi]. *)
Definition stars_between (lo hi : Z) (s : option Z) : Prop :=
  match s with None => True | Some n => lo ≤ n ≤ hi end.

Definition stars_nonneg (s : option Z) : Prop :=
  match s with None => True | Some n => 0 ≤ n end.

(** "Both star counts of every parsed record are absent or within 0..4". *)
Definition stars_within_four : Prop :=
  ∀ doc : Dom.node,
    stars_between 0 4 (starsHigh (parseScoutHTML doc))
    ∧ stars_between 0 4 (starsLow (parseScoutHTML doc)).

(** The block that decides the rating [h] of a document: the last [dd]
    whose heading is treated as [h]. *)
Definition deciding_block (h : heading) (doc : Dom.node)
  : option Dom.located :=
  last (List.filter (fun d => bool_decide (dd_heading d = h)) (dds doc)).

(** The number of [.lit] elements inside the first [.stars] element of
    the block, absent without a block or without such an element. *)
Definition lit_count_of (block : option Dom.located) : option Z :=
  match block with
  | Some d =>
      match Dom.querySelector (Dom.SelClass "stars") d with
      | Some widget =>
          Some (Z.of_nat (length (Dom.querySelectorAll (Dom.SelClass "lit")
                                    widget)))
      | None => None
      end
  | None => None
  end.

(** *** Sample reports *)

Module Sample.
Import Dom.

Definition li (ch : list node) : node := Elem "li" [] ch.

Definition lit_star : node := Elem "i" [("class", "fa fa-star fa-2x lit")] [].

Definition stars (lit : nat) : node :=
  Elem "span" [("class", "stars")] (repeat lit_star lit).

(** [<dd><ul><li><strong>title</strong></li><li>stars</li>
     <li>skill</li>...</ul></dd>] *)
Definition block (title : string) (lit : nat) (skills : list string) : node :=
  Elem "dd" []
    [Elem "ul" []
       (li [Elem "strong" [] [Text title]]
          :: li [stars lit]
          :: map (fun s => li [Text s]) skills)].

Definition report (blocks : list node) : node :=
  Elem "html" [] [Elem "head" [] []; Elem "body" [] [Elem "dl" [] blocks]].

(** Two blocks headed "Highest potential". *)
Definition two_highest : node :=
  report [ block "Highest potential" 4 ["Speed"];
           block "Highest potential" 2 ["Stamina"] ].

(** A block with [n] lit stars. *)
Definition lit_stars (n : nat) : node :=
  report [ block "Highest potential" n ["Speed"] ].

Definition lit_stars_low (n : nat) : node :=
  report [ block "Lowest potential" n ["Speed"] ].

End Sample.

(** ** Vocabulary of the cache and fetcher properties *)

(** The expiry window, in milliseconds. *)
Definition expiry_ms : Z := CACHE_EXPIRY_DAYS * 24 * 60 * 60 * 1000.

(** The cache lookup for [pid] at time [now] yields nothing usable: no
    entry, an unreadable or expired one, or one without scout data. *)
Definition uncached (pid : string) (now : Z) (st : LocalStorage.t) : Prop :=
  Js.truthy (fst (getCachedScoutData pid now st)) = false.

Module SampleCache.

Definition empty : LocalStorage.t := LocalStorage.mk ∅ false.

Definition record : ScoutRecord := mkScout ["Passing"] ["Tackling"] (Some 3) None.

(** A server answering every request with the same report. *)
Definition server (url : string) : response :=
  HttpResponse 200 (Sample.lit_stars 3).

End SampleCache.

(** ** Vocabulary of the flag-placement properties *)

(** One placement on a row: its flag cells are emptied and the first
    [count] of them receive one flag of colour [c]. *)
Definition placeRow (c : color) (count : nat) (tr : Row) : Row :=
  setFlagsInCells (getFlagCells tr) c count tr.

(** The cell at position [j] of a row after a placement on [cells]. *)
Definition cellAfter (cells : list nat) (c : color) (count : nat)
    (j : nat) (x : Cell) : Cell :=
  if decide (j ∈ take count cells) then mkCell (cell_width x) [flagImg c]
  else if decide (j ∈ cells) then clearCell x
  else x.

(** The placement that decides the final state of a row filed under
    [k]: the low one when [k] is a low skill and [starsLow] gives a flag,
    otherwise the high one when [k] is a high skill and [starsHigh] gives
    at least one flag. *)
Definition instruction (highest lowest : list string)
    (starsHigh starsLow : option Z) (k : string) : option (color * nat) :=
  let high :=
    if (0 <? highCount starsHigh)%nat && bool_decide (k ∈ norm <$> highest)
    then Some (green, highCount starsHigh) else None in
  match lowSpec starsLow with
  | Some spec => if bool_decide (k ∈ norm <$> lowest) then Some spec else high
  | None => high
  end.

Definition rowAfter (nested : bool) (highest lowest : list string)
    (starsHigh starsLow : option Z) (tr : Row) : Row :=
  match rowName nested tr
          ≫= instruction highest lowest starsHigh starsLow with
  | Some (c, n) => placeRow c n tr
  | None => tr
  end.

(** The positions, from [i] on, of the rows filed under [k]. *)
Definition rowsNamed (nested : bool) (k : string) (i : nat) (rows : Table)
  : list nat :=
  positions (fun tr => bool_decide (rowName nested tr = Some k)) i rows.

(** The displayed name of the row, normalised, is one of the normalised
    [skills]. *)
Definition named_in (nested : bool) (skills : list string) (tr : Row)
  : bool :=
  match rowName nested tr with
  | Some k => bool_decide (k ∈ norm <$> skills)
  | None => false
  end.

(** The colour of a flag image, read off its [src]. *)
Definition flag_colour (n : Dom.node) : option color :=
  match Dom.tagName n, Dom.getAttribute "src" n with
  | Some "img", Some src =>
      if decide (src = FLAG_IMG green) then Some green
      else if decide (src = FLAG_IMG yellow) then Some yellow
      else if decide (src = FLAG_IMG red) then Some red
      else None
  | _, _ => None
  end.

(** The flag icons found in the flag cells of a row, left to right. *)
Definition flagsOf (tr : Row) : list color :=
  flat_map (fun j => match tr !! j with
                     | Some td => omap flag_colour (cell_content td)
                     | None => []
                     end) (getFlagCells tr).



(** The name spans that are left once the flag cells of the row have
    been emptied, and the name they give the row. *)
Definition keptSpans (nested : bool) (tr : Row) : list Dom.node :=
  concat (imap (fun j td => if decide (j ∈ getFlagCells tr) then []
                            else cellSpans nested j td) tr).

Definition keptName (nested : bool) (tr : Row) : option string :=
  match head (keptSpans nested tr) with
  | Some nameSpan => Some (norm (Dom.textContent nameSpan))
  | None => None
  end.

(** Emptying the flag cells of the row leaves it filed under the name it
    had, or under none. *)
Definition name_settled (nested : bool) (tr : Row) : Prop :=
  keptName nested tr = None ∨ keptName nested tr = rowName nested tr.

(** No [td] element among the nodes below [n]. *)
Fixpoint td_free (n : Dom.node) : bool :=
  match n with
  | Dom.Text _ => true
  | Dom.Elem _ _ ch => forallb (fun c => negb (is_td c) && td_free c) ch
  end.


(** [mapNameToRow(container)]: the lookup keyed by [normalizeSkillName],
    built from the spans [.player_skills td:first-child .clippable]
    matches, in document order; an entry pairs the span with the position
    of its row ([span.closest("tr")]). *)
Fixpoint mapNameToRow_from (nested : bool) (i : nat) (rows : Table)
    (m : gmap string (list (Dom.node * nat)))
  : gmap string (list (Dom.node * nat)) :=
  match rows with
  | [] => m
  | tr :: rows' =>
      mapNameToRow_from nested (S i) rows'
        (fold_left
           (fun m span =>
              let skillNorm := normalizeSkillName (Dom.textContent span) in
              <[skillNorm := default [] (m !! skillNorm) ++ [(span, i)]]> m)
           (rowSpans nested tr)
           m)
  end.

Definition mapNameToRow (nested : bool) (container : Table)
  : gmap string (list (Dom.node * nat)) :=
  mapNameToRow_from nested 0 container ∅.

(** *** Sample skill tables *)

Module SampleTable.

Definition nameCell (w : option string) (name : string) : Cell :=
  mkCell w [Dom.Elem "span" [("class", "clippable")] [Dom.Text name]].

Definition valueCell (w : string) : Cell := mkCell (Some w) [].

(** The expected row: name, then cells of width 7, 7 and 6. *)
Definition row (name : string) : Row :=
  [nameCell None name; valueCell "7"; valueCell "7"; valueCell "6"].


Definition keeper : Table := [row "Keeping"].


Definition passing_tackling : Table := [row "Passing"; row "Tackling"].



End SampleTable.

(** ** Further functions of the content script *)

(** [s.startsWith(p)] *)
Definition startsWith (s p : string) : bool :=
  JsString.startsWithL (list_ascii_of_string p) (list_ascii_of_string s).

(** [Object.keys(localStorage)]: the keys of the stored items.  The
    browser lists them in its own order; nothing below depends on it. *)
Definition storageKeys (st : LocalStorage.t) : list string :=
  (map_to_list (LocalStorage.items st)).*1.

(** The keys [clearScoutCache] and the statistics look at. *)
Definition cacheKeysOf (st : LocalStorage.t) : list string :=
  List.filter (fun key => startsWith key CACHE_KEY_PREFIX) (storageKeys st).

(** [clearScoutCache()]: the number of entries removed, and the store
    afterwards. *)
Definition clearScoutCache (st : LocalStorage.t) : Z * LocalStorage.t :=
  let cacheKeys := cacheKeysOf st in
  (Z.of_nat (length cacheKeys),
   fold_left (fun s key => LocalStorage.removeItem key s) cacheKeys st).

Section MessageHandler.

(** The length of a stored string. *)
Variable item_length : Js.text → Z.

(** [req?.type] *)
Definition request_type (req : Js.value) : Js.value :=
  match req with
  | Js.VUndefined | Js.VNull => Js.VUndefined
  | _ => default Js.VUndefined (Js.get_prop req "type")
  end.

(** [v === s] for a string literal [s]. *)
Definition is_string (v : Js.value) (s : string) : bool :=
  match v with Js.VStr s' => bool_decide (s' = s) | _ => false end.

(** [totalSize]: the [reduce] over the cache keys. *)
Definition totalSizeOf (keys : list string) (st : LocalStorage.t) : Z :=
  fold_left
    (fun size key =>
       size + match LocalStorage.getItem key st with
              | Some item => if Js.text_truthy item then item_length item else 0
              | None => 0
              end)
    keys 0.

(** The listener registered with [chrome.runtime.onMessage]: the object
    passed to [sendResponse], if any, and the store afterwards. *)
Definition onMessage (req : Js.value) (st : LocalStorage.t)
  : option Js.value * LocalStorage.t :=
  if is_string (request_type req) "GET_CACHE_STATS" then
    let keys := cacheKeysOf st in
    let stats :=
      Js.VObj [ ("totalCached", Js.VNum (Z.of_nat (length keys)));
                ("totalSize", Js.VNum (totalSizeOf keys st));
                ("cacheKeys", Js.VArr (map Js.VStr keys)) ] in
    (Some (Js.VObj [("stats", stats)]), st)
  else if is_string (request_type req) "CLEAR_CACHE" then
    let (clearedCount, st') := clearScoutCache st in
    (Some (Js.VObj [("clearedCount", Js.VNum clearedCount)]), st')
  else (None, st).

End MessageHandler.

(** *** Player id *)

(** [el.matches("[id^='player_id_']")] *)
Definition has_player_id (n : Dom.node) : bool :=
  match Dom.getAttribute "id" n with
  | Some v => startsWith v "player_id_"
  | None => false
  end.

(** The elements below [n] matched by
    [[id^='player_id_'] .player_id_span], in document order; [under]
    tells whether [n] or one of its ancestors carries such an id. *)
Fixpoint player_id_spans (under : bool) (n : Dom.node) : list Dom.node :=
  match n with
  | Dom.Text _ => []
  | Dom.Elem _ _ ch =>
      flat_map
        (fun c =>
           (if under && Dom.is_element c
               && bool_decide ("player_id_span" ∈ Dom.classList c)
            then [c] else [])
             ++ player_id_spans (under || has_player_id c) c)
        ch
  end.

(** [getPlayerIdFromContainer(container)]; [outer] tells whether an
    ancestor of the container carries an id beginning with [player_id_]. *)
Definition getPlayerIdFromContainer (outer : bool) (container : Dom.node)
  : option string :=
  match head (player_id_spans (outer || has_player_id container) container) with
  | Some idSpan =>
      let id := JsString.trim (Dom.textContent idSpan) in
      if JsString.truthy id then Some id else None
  | None => None
  end.

(** *** Container scanner (observer variant of the script) *)

Definition REQUEST_GAP_MS : Z := 250.

(** [processNewContainers()]: [containers] is what [getPlayerContainers()]
    returns, each container named by the identity of its DOM node, and
    [processedContainers] the [WeakSet].  The result lists the calls
    [processContainerAndStore(c, delay)] in the order they are started,
    with the set afterwards. *)
Definition processNewContainers (containers : list nat)
    (processedContainers : gset nat) : list (nat * Z) * gset nat :=
  let newContainers :=
    List.filter (fun c => bool_decide (c ∉ processedContainers)) containers in
  match newContainers with
  | [] => ([], processedContainers)
  | _ =>
      (imap (fun i c => (c, Z.of_nat i * REQUEST_GAP_MS)) newContainers,
       fold_left (fun s c => s ∪ {[c]}) newContainers processedContainers)
  end.

(** Successive scans: one call of [processNewContainers] per snapshot of
    the page, the calls started by all of them in order. *)
Fixpoint scans (snapshots : list (list nat)) (processedContainers : gset nat)
  : list (nat * Z) * gset nat :=
  match snapshots with
  | [] => ([], processedContainers)
  | containers :: later =>
      let (started, seen) := processNewContainers containers processedContainers in
      let (started', seen') := scans later seen in
      (started ++ started', seen')
  end.

(** *** Sample data for the properties below *)

Module SampleMore.

(** A report of the expected shape: one block per rating. *)
Definition full_report (n : nat) (hs : list string) (m : nat) (ls : list string)
  : Dom.node :=
  Sample.report [ Sample.block "Highest potential" n hs;
                  Sample.block "Lowest potential" m ls ].

Definition player_card (id : string) : Dom.node :=
  Dom.Elem "div" [("class", "playerContainer")]
    [ Dom.Elem "h2" [("class", "subheader")]
        [ Dom.Elem "span" [("id", ("player_id_" ++ id)%string)]
            [ Dom.Text "id: ";
              Dom.Elem "span" [("class", "player_id_span")] [Dom.Text id] ] ] ].

Definition stored (pid : string) (r : ScoutRecord) (t : Z)
    (st : LocalStorage.t) : LocalStorage.t :=
  setCachedScoutData pid (value_of_record r) t t st.

Definition two_players : LocalStorage.t :=
  LocalStorage.mk
    (<["theme" := Js.MalformedText]>
       (LocalStorage.items
          (stored "7" SampleCache.record 1700000000000
             (stored "8" SampleCache.record 1700000000000 SampleCache.empty))))
    false.

Definition failing_server (url : string) : response := HttpResponse 503 (Dom.Text "").

Definition offline_server (url : string) : response := NetworkFailure.

End SampleMore.

(** A string made of white space only. *)
Definition blank (s : string) : bool :=
  forallb JsString.is_ws (list_ascii_of_string s).

(** * Properties *)

(** ** Strings and the normaliser *)

Section StringFacts.

Import JsString.

Lemma lower_char_idem (c : ascii) : lower_char (lower_char c) = lower_char c.
Proof. destruct c as [[] [] [] [] [] [] [] []]; reflexivity. Qed.

Lemma is_ws_lower_char (c : ascii) : is_ws (lower_char c) = is_ws c.
Proof. destruct c as [[] [] [] [] [] [] [] []]; reflexivity. Qed.

(** Leading white space is only ever dropped. *)
Lemma trimStartL_split (l : list ascii) :
  ∃ p, l = p ++ trimStartL l.
Proof.
  induction l as [|c l [p Hp]]; [by exists []|].
  simpl. destruct (is_ws c).
  - exists (c :: p). by rewrite Hp at 1.
  - by exists [].
Qed.

Lemma trimStartL_clean (l : list ascii) : starts_clean (trimStartL l).
Proof.
  induction l as [|c l IH]; [done|].
  simpl. destruct (is_ws c) eqn:E; [done|]. exact E.
Qed.

Lemma trimStartL_of_clean (l : list ascii) :
  starts_clean l → trimStartL l = l.
Proof. destruct l as [|c l]; [done|]. simpl. by intros ->. Qed.

Lemma starts_clean_prefix (l1 l2 : list ascii) :
  starts_clean (l1 ++ l2) → starts_clean l1.
Proof. by destruct l1. Qed.

Lemma trimL_idem (l : list ascii) : trimL (trimL l) = trimL l.
Proof.
  unfold trimL.
  set (x := trimStartL l).
  set (y := rev (trimStartL (rev x))).
  assert (Hy : starts_clean y).
  { destruct (trimStartL_split (rev x)) as [p Hp].
    apply (starts_clean_prefix y (rev p)).
    unfold y. rewrite <- rev_app_distr, <- Hp, rev_involutive.
    apply trimStartL_clean. }
  rewrite (trimStartL_of_clean y Hy).
  unfold y at 1. rewrite rev_involutive.
  by rewrite (trimStartL_of_clean _ (trimStartL_clean (rev x))).
Qed.

Lemma trimStartL_lower (l : list ascii) :
  trimStartL (map lower_char l) = map lower_char (trimStartL l).
Proof.
  induction l as [|c l IH]; [done|].
  simpl. rewrite is_ws_lower_char. by destruct (is_ws c).
Qed.

Lemma trimL_lower (l : list ascii) :
  trimL (map lower_char l) = map lower_char (trimL l).
Proof.
  unfold trimL.
  by rewrite trimStartL_lower, <- map_rev, trimStartL_lower, map_rev.
Qed.

Lemma map_lower_idem (l : list ascii) :
  map lower_char (map lower_char l) = map lower_char l.
Proof.
  rewrite map_map. apply map_ext. intros c. apply lower_char_idem.
Qed.

(** [norm] is idempotent on strings. *)
Lemma norm_idem (s : string) : norm (norm s) = norm s.
Proof.
  unfold norm, toLowerCase, trim.
  rewrite !list_ascii_of_string_of_list_ascii.
  by rewrite trimL_lower, map_lower_idem, trimL_idem.
Qed.

End StringFacts.

Lemma Map_get_In (m : list (string * string)) (k v : string) :
  Map_get m k = Some v → (k, v) ∈ m.
Proof.
  induction m as [|[k' v'] m IH]; [done|].
  simpl. destruct (decide (k' = k)) as [->|].
  - intros [= ->]. left.
  - intros H. right. by apply IH.
Qed.

(** Every value of the alias table is a key that maps to itself, and is
    already in normal form. *)
Lemma alias_values_canonical :
  Forall (fun kv => normalizeSkillName (snd kv) = snd kv
                    ∧ JsString.truthy (snd kv) = true) SKILL_NAME_ALIAS.
Proof. repeat constructor. Qed.

(** C8: [normalizeSkillName] is idempotent: for every string [x],
    normalising the normalised name gives the normalised name again;
    trimming, lower-casing and the alias lookup compose to a projection. *)
Theorem normalizeSkillName_idempotent (x : string) :
  normalizeSkillName (normalizeSkillName x) = normalizeSkillName x.
Proof.
  destruct (Map_get SKILL_NAME_ALIAS (norm x)) as [v|] eqn:Hget.
  - pose proof alias_values_canonical as Hall.
    rewrite Forall_forall in Hall.
    destruct (Hall _ (Map_get_In _ _ _ Hget)) as [Hfix Htruthy].
    simpl in Hfix, Htruthy.
    assert (Hx : normalizeSkillName x = v).
    { unfold normalizeSkillName. by rewrite Hget, Htruthy. }
    by rewrite Hx.
  - assert (Hx : normalizeSkillName x = norm x).
    { unfold normalizeSkillName. by rewrite Hget. }
    rewrite Hx. unfold normalizeSkillName. by rewrite norm_idem, Hget.
Qed.

(** ** Scout-report parser *)

Section ParserFacts.

(** The loop body, by the kind of heading. *)
Lemma parse_step_heading (acc : ScoutRecord) (dd : Dom.located) :
  parse_step acc dd =
    match dd_heading dd with
    | Highest =>
        mkScout (dd_skills dd) (lowest acc) (dd_litCount dd) (starsLow acc)
    | Lowest =>
        mkScout (highest acc) (dd_skills dd) (starsHigh acc) (dd_litCount dd)
    | Unrecognised => acc
    end.
Proof.
  unfold parse_step, dd_heading.
  destruct (dd_title dd) as [title|]; [|done].
  destruct title as [|c title]; [done|]. simpl negb. cbv iota.
  destruct (JsString.includes (String c title) "highest"); [done|].
  by destruct (JsString.includes (String c title) "lowest").
Qed.

Lemma parse_step_sets (h : heading) (acc : ScoutRecord) (dd : Dom.located) :
  h ≠ Unrecognised → dd_heading dd = h →
  skills_of h (parse_step acc dd) = dd_skills dd
  ∧ stars_of h (parse_step acc dd) = dd_litCount dd.
Proof.
  intros Hh Hd. rewrite parse_step_heading, Hd.
  by destruct h.
Qed.

Lemma parse_step_keeps (h : heading) (acc : ScoutRecord) (dd : Dom.located) :
  h ≠ Unrecognised → dd_heading dd ≠ h →
  skills_of h (parse_step acc dd) = skills_of h acc
  ∧ stars_of h (parse_step acc dd) = stars_of h acc.
Proof.
  intros Hh Hd. rewrite parse_step_heading.
  destruct (dd_heading dd), h; done.
Qed.

Lemma parse_loop_keeps (h : heading) (l : list Dom.located)
    (acc : ScoutRecord) :
  h ≠ Unrecognised → Forall (fun d => dd_heading d ≠ h) l →
  skills_of h (fold_left parse_step l acc) = skills_of h acc
  ∧ stars_of h (fold_left parse_step l acc) = stars_of h acc.
Proof.
  intros Hh Hl. revert acc.
  induction Hl as [|d l Hd Hl IH]; intros acc; [done|].
  simpl. destruct (IH (parse_step acc d)) as [-> ->].
  by apply parse_step_keeps.
Qed.

Lemma dd_heading_unrecognised (d : Dom.located) :
  title_has "highest" d = false → title_has "lowest" d = false →
  dd_heading d = Unrecognised.
Proof.
  unfold title_has, dd_heading.
  destruct (dd_title d); [|done]. by intros -> ->.
Qed.

Lemma parse_step_nonneg (acc : ScoutRecord) (dd : Dom.located) :
  stars_nonneg (starsHigh acc) ∧ stars_nonneg (starsLow acc) →
  stars_nonneg (starsHigh (parse_step acc dd))
  ∧ stars_nonneg (starsLow (parse_step acc dd)).
Proof.
  intros [H1 H2]. rewrite parse_step_heading.
  assert (Hlit : stars_nonneg (dd_litCount dd)).
  { unfold dd_litCount. destruct (Dom.querySelector _ dd); simpl; lia. }
  by destruct (dd_heading dd).
Qed.

Lemma parse_loop_nonneg (l : list Dom.located) (acc : ScoutRecord) :
  stars_nonneg (starsHigh acc) ∧ stars_nonneg (starsLow acc) →
  stars_nonneg (starsHigh (fold_left parse_step l acc))
  ∧ stars_nonneg (starsLow (fold_left parse_step l acc)).
Proof.
  revert acc. induction l as [|d l IH]; intros acc H; [done|].
  simpl. by apply IH, parse_step_nonneg.
Qed.

(** The loop leaves in a rating the count of the last block of its
    kind, or what it started with. *)
Lemma parse_loop_last (h : heading) (l : list Dom.located)
    (acc : ScoutRecord) :
  h ≠ Unrecognised →
  stars_of h (fold_left parse_step l acc)
  = match last (List.filter (fun d => bool_decide (dd_heading d = h)) l) with
    | Some d => dd_litCount d
    | None => stars_of h acc
    end.
Proof.
  intros Hh. induction l as [|d l IH] using rev_ind; [done|].
  rewrite fold_left_app, List.filter_app. cbn [fold_left List.filter].
  case_bool_decide as Hd.
  - rewrite last_snoc. by apply parse_step_sets.
  - rewrite app_nil_r, <- IH. by apply parse_step_keeps.
Qed.

End ParserFacts.

(** *** Reports with any number of lit stars *)

Section StarCounts.

Import Dom.

Lemma descendants_stars (anc : list string) (n : nat) :
  descendants anc (Sample.stars n) = repeat (Located ("span" :: anc) Sample.lit_star) n.
Proof.
  unfold Sample.stars. cbn [descendants].
  induction n as [|n IH]; [done|].
  cbn [repeat flat_map is_element descendants app]. by rewrite IH.
Qed.

Lemma filter_repeat {A} (p : A → bool) (x : A) (n : nat) :
  List.filter p (repeat x n) = if p x then repeat x n else [].
Proof.
  induction n as [|n IH]; [by destruct (p x)|].
  cbn [repeat List.filter]. rewrite IH. by destruct (p x).
Qed.

Lemma descendants_skill_items (anc : list string) (skills : list string) :
  flat_map (fun c => (if is_element c then [Located anc c] else [])
                       ++ descendants anc c)
    (map (fun s => Elem "li" [] [Text s]) skills)
  = map (fun s => Located anc (Elem "li" [] [Text s])) skills.
Proof.
  induction skills as [|s skills IH]; [done|].
  cbn [map flat_map]. rewrite IH. reflexivity.
Qed.

(** The elements below a sample block, in document order. *)
Lemma descendants_block (anc : list string) (title : string) (n : nat)
    (skills : list string) :
  descendants anc (Sample.block title n skills)
  = [ Located ("dd" :: anc)
        (Elem "ul" [] (Sample.li [Elem "strong" [] [Text title]]
                         :: Sample.li [Sample.stars n]
                         :: map (fun s => Sample.li [Text s]) skills));
      Located ("ul" :: "dd" :: anc) (Sample.li [Elem "strong" [] [Text title]]);
      Located ("li" :: "ul" :: "dd" :: anc) (Elem "strong" [] [Text title]);
      Located ("ul" :: "dd" :: anc) (Sample.li [Sample.stars n]);
      Located ("li" :: "ul" :: "dd" :: anc) (Sample.stars n) ]
    ++ repeat (Located ("span" :: "li" :: "ul" :: "dd" :: anc) Sample.lit_star) n
    ++ map (fun s => Located ("ul" :: "dd" :: anc) (Sample.li [Text s])) skills.
Proof.
  unfold Sample.block, Sample.li.
  cbn [descendants flat_map is_element app].
  rewrite descendants_skill_items.
  change (is_element (Sample.stars n)) with true. cbn iota.
  rewrite descendants_stars, !app_nil_r.
  reflexivity.
Qed.

Lemma filter_cons_true {A} (p : A → bool) (x : A) (l : list A) :
  p x = true → List.filter p (x :: l) = x :: List.filter p l.
Proof. simpl. by intros ->. Qed.

Lemma filter_cons_false {A} (p : A → bool) (x : A) (l : list A) :
  p x = false → List.filter p (x :: l) = List.filter p l.
Proof. simpl. by intros ->. Qed.

Lemma litCount_stars (anc : list string) (n : nat) :
  length (querySelectorAll (SelClass "lit") (Located anc (Sample.stars n))) = n.
Proof.
  unfold querySelectorAll. cbn [ancestors element].
  rewrite descendants_stars, filter_repeat.
  replace (matches _ _) with true by reflexivity.
  apply repeat_length.
Qed.

Lemma dd_litCount_block (anc : list string) (title : string) (n : nat)
    (skills : list string) :
  dd_litCount (Located anc (Sample.block title n skills)) = Some (Z.of_nat n).
Proof.
  unfold dd_litCount, querySelector.
  unfold querySelectorAll at 1.
  cbn [ancestors element]. rewrite descendants_block.
  cbn [app].
  rewrite !filter_cons_false by reflexivity.
  rewrite filter_cons_true by reflexivity.
  cbn [head]. by rewrite litCount_stars.
Qed.

Lemma string_app_empty (s : string) : (s ++ "")%string = s.
Proof.
  induction s as [|c s IH]; [done|].
  change (String c (s ++ "")%string = String c s). by rewrite IH.
Qed.

Lemma dd_title_block (anc : list string) (title : string) (n : nat)
    (skills : list string) :
  dd_title (Located anc (Sample.block title n skills))
  = Some (JsString.toLowerCase (JsString.trim title)).
Proof.
  unfold dd_title, querySelector, querySelectorAll.
  cbn [ancestors element]. rewrite descendants_block.
  cbn [app].
  rewrite !filter_cons_false by reflexivity.
  rewrite filter_cons_true by reflexivity.
  cbn [head element textContent fold_right].
  by rewrite string_app_empty.
Qed.

Lemma dds_report_single (title : string) (n : nat) (skills : list string) :
  dds (Sample.report [Sample.block title n skills])
  = [Located ["dl"; "body"; "html"] (Sample.block title n skills)].
Proof.
  unfold dds, document_querySelectorAll, Sample.report.
  cbn [is_element descendants flat_map app].
  change (is_element (Sample.block title n skills)) with true. cbn iota.
  rewrite descendants_block, !app_nil_r. cbn [app].
  rewrite !filter_cons_false by reflexivity.
  rewrite filter_cons_true by reflexivity.
  rewrite !filter_cons_false by reflexivity.
  f_equal.
  rewrite List.filter_app, filter_repeat.
  replace (matches _ _) with false by reflexivity.
  cbn [app]. induction skills as [|s skills IH]; [done|].
  cbn [map]. by rewrite filter_cons_false by reflexivity.
Qed.

(** The parser puts no bound on a star count: every natural number is the
    [starsHigh] of some report. *)
Lemma every_star_count_occurs (n : nat) :
  starsHigh (parseScoutHTML (Sample.lit_stars n)) = Some (Z.of_nat n).
Proof.
  unfold parseScoutHTML, Sample.lit_stars. fold (dds (Sample.report
    [Sample.block "Highest potential" n ["Speed"]])).
  rewrite dds_report_single. cbn [fold_left].
  rewrite parse_step_heading.
  unfold dd_heading. rewrite dd_title_block.
  replace (JsString.includes _ "highest") with true by reflexivity.
  cbn [starsHigh]. apply dd_litCount_block.
Qed.

Lemma every_low_star_count_occurs (n : nat) :
  starsLow (parseScoutHTML (Sample.lit_stars_low n)) = Some (Z.of_nat n).
Proof.
  unfold parseScoutHTML, Sample.lit_stars_low. fold (dds (Sample.report
    [Sample.block "Lowest potential" n ["Speed"]])).
  rewrite dds_report_single. cbn [fold_left].
  rewrite parse_step_heading.
  unfold dd_heading. rewrite dd_title_block.
  replace (JsString.includes _ "highest") with false by reflexivity.
  replace (JsString.includes _ "lowest") with true by reflexivity.
  cbn [starsLow]. apply dd_litCount_block.
Qed.

End StarCounts.

(** C3 (as stated) fails: with two blocks headed "Highest potential" the
    record holds the skills and stars of the second one. *)
Lemma first_heading_wins_fails : ¬ first_heading_wins.
Proof.
  intros H.
  pose (first := Dom.Located ["dl"; "body"; "html"]
                   (Sample.block "Highest potential" 4 ["Speed"])).
  pose (second := Dom.Located ["dl"; "body"; "html"]
                    (Sample.block "Highest potential" 2 ["Stamina"])).
  destruct (H Sample.two_highest [] [second] first eq_refl) as [Hhigh _].
  assert (Hlater : Exists (fun d' => title_has "highest" d' = true) [second]).
  { apply Exists_cons_hd. reflexivity. }
  destruct (Hhigh eq_refl (List.Forall_nil _) Hlater) as [Hskills _].
  vm_compute in Hskills. discriminate Hskills.
Qed.

(** C3 (amended): for every document, the last block whose heading is
    treated as "highest" fills [highest] and [starsHigh], and the last one
    treated as "lowest" fills [lowest] and [starsLow]; earlier blocks of
    the same kind are overwritten.  A heading containing both words is
    treated as "highest". *)
Theorem parse_last_heading_wins (h : heading) (doc : Dom.node)
    (pre post : list Dom.located) (d : Dom.located) :
  h ≠ Unrecognised →
  dds doc = pre ++ d :: post →
  dd_heading d = h →
  Forall (fun d' => dd_heading d' ≠ h) post →
  skills_of h (parseScoutHTML doc) = dd_skills d
  ∧ stars_of h (parseScoutHTML doc) = dd_litCount d.
Proof.
  intros Hh Hdds Hd Hpost.
  unfold parseScoutHTML. fold (dds doc). rewrite Hdds.
  rewrite fold_left_app. simpl.
  destruct (parse_loop_keeps h post
              (parse_step (fold_left parse_step pre emptyScout) d) Hh Hpost)
    as [-> ->].
  by apply parse_step_sets.
Qed.

Lemma parse_last_heading_wins_witness :
  skills_of Highest (parseScoutHTML Sample.two_highest) = ["Stamina"]
  ∧ stars_of Highest (parseScoutHTML Sample.two_highest) = Some 2.
Proof.
  apply (parse_last_heading_wins Highest Sample.two_highest
           (take 1 (dds Sample.two_highest)) []
           (Dom.Located ["dl"; "body"; "html"]
              (Sample.block "Highest potential" 2 ["Stamina"]))).
  - discriminate.
  - reflexivity.
  - reflexivity.
  - constructor.
Defined.

(** C6: [parseScoutHTML] is a total function of the parsed document (no
    step of it can raise), and on every document none of whose [dd] blocks
    has a heading containing "highest" or "lowest" it returns exactly
    [{highest: [], lowest: [], starsHigh: undefined, starsLow: undefined}]. *)
Theorem parse_without_headings (doc : Dom.node) :
  Forall (fun d => title_has "highest" d = false
                   ∧ title_has "lowest" d = false) (dds doc) →
  parseScoutHTML doc = mkScout [] [] None None.
Proof.
  unfold parseScoutHTML. fold (dds doc). fold emptyScout.
  generalize emptyScout.
  induction (dds doc) as [|d l IH]; intros acc Hall; [done|].
  inversion Hall as [|? ? [Hhi Hlo] Hl]; subst. simpl.
  rewrite parse_step_heading, (dd_heading_unrecognised d Hhi Hlo).
  by apply IH.
Qed.

Lemma parse_without_headings_witness :
  parseScoutHTML
    (Sample.report [Sample.block "Youth training speed" 3 ["Speed"]])
  = mkScout [] [] None None.
Proof.
  apply parse_without_headings.
  repeat constructor.
Defined.

(** C9 (as stated) fails: a block with five lit stars is parsed to
    [starsHigh = 5]. *)
Lemma stars_within_four_fails : ¬ stars_within_four.
Proof.
  intros H. destruct (H (Sample.lit_stars 5)) as [Hhigh _].
  vm_compute in Hhigh. destruct Hhigh as [_ Hle]. by apply Hle.
Qed.

(** C9 (amended): for every document, [starsHigh] is the number of lit
    elements inside the first stars widget of the last block treated as
    "highest", and [starsLow] that of the last block treated as "lowest";
    each is absent when the document has no such block or the block has
    no stars widget.  Hence each is absent or a non-negative integer, and
    the parser puts no upper bound on it: every natural number is the
    [starsHigh] of some document and the [starsLow] of some document. *)
Theorem parse_stars_count :
  (∀ doc : Dom.node,
     starsHigh (parseScoutHTML doc) = lit_count_of (deciding_block Highest doc)
     ∧ starsLow (parseScoutHTML doc) = lit_count_of (deciding_block Lowest doc)
     ∧ stars_nonneg (starsHigh (parseScoutHTML doc))
     ∧ stars_nonneg (starsLow (parseScoutHTML doc)))
  ∧ (∀ n : nat,
       (∃ doc, starsHigh (parseScoutHTML doc) = Some (Z.of_nat n))
       ∧ (∃ doc, starsLow (parseScoutHTML doc) = Some (Z.of_nat n))).
Proof.
  split.
  - intros doc.
    assert (Hlast : ∀ h, h ≠ Unrecognised →
              stars_of h (parseScoutHTML doc)
              = lit_count_of (deciding_block h doc)).
    { intros h Hh. unfold parseScoutHTML. fold (dds doc).
      rewrite (parse_loop_last h (dds doc) emptyScout Hh).
      unfold deciding_block, lit_count_of.
      destruct (last _) as [d|]; [done|]. by destruct h. }
    split; [exact (Hlast Highest ltac:(discriminate))|].
    split; [exact (Hlast Lowest ltac:(discriminate))|].
    by apply parse_loop_nonneg.
  - intros n. split.
    + exists (Sample.lit_stars n). apply every_star_count_occurs.
    + exists (Sample.lit_stars_low n). apply every_low_star_count_occurs.
Qed.

(** ** Scout cache and fetcher *)

Section CacheFacts.

Lemma json_of_strings (l : list string) :
  map (fun x => match x with
                | Js.VUndefined => Js.VNull
                | _ => Js.json_of x
                end) (map Js.VStr l) = map Js.VStr l.
Proof. induction l as [|s l IH]; [done|]. simpl. by rewrite IH. Qed.

(** Reading back the serialised record gives the fields of the record:
    an [undefined] star count is dropped by the serialisation and reads
    as [undefined] again. *)
Lemma reads_as_json_of_record (r : ScoutRecord) :
  reads_as (Js.json_of (value_of_record r)) r.
Proof.
  destruct r as [hi lo [sh|] [sl|]];
    unfold reads_as, value_of_record; cbn;
    rewrite !json_of_strings; done.
Qed.

Lemma expiry_ms_pos : 0 < expiry_ms.
Proof. done. Qed.

Lemma setCachedScoutData_accepted (pid : string) (r : ScoutRecord)
    (t tc : Z) (st : LocalStorage.t) :
  LocalStorage.quotaExceeded st = false →
  setCachedScoutData pid (value_of_record r) t tc st =
    LocalStorage.mk
      (<[getCacheKey pid :=
           Js.JsonText
             (Js.VObj [ ("scoutData", Js.json_of (value_of_record r));
                        ("expires", Js.VNum (t + expiry_ms));
                        ("cached", Js.VNum tc) ])]>
         (LocalStorage.items st))
      false.
Proof.
  intros Hq. unfold setCachedScoutData, LocalStorage.setItem.
  rewrite Hq. reflexivity.
Qed.

(** The lookup that follows an accepted write, at any later reading of
    the clock. *)
Lemma get_after_set (pid : string) (r : ScoutRecord) (t tc now : Z)
    (st : LocalStorage.t) :
  LocalStorage.quotaExceeded st = false →
  t + expiry_ms ≠ 0 →
  let st1 := setCachedScoutData pid (value_of_record r) t tc st in
  getCachedScoutData pid now st1 =
    if bool_decide (now ≤ t + expiry_ms)
    then (Js.json_of (value_of_record r), st1)
    else (Js.VNull, LocalStorage.removeItem (getCacheKey pid) st1).
Proof.
  intros Hq Hnz st1. subst st1.
  rewrite (setCachedScoutData_accepted pid r t tc st Hq).
  unfold getCachedScoutData, LocalStorage.getItem.
  cbn [LocalStorage.items]. rewrite lookup_insert_eq.
  cbn [Js.text_truthy negb Js.JSON_parse Js.get_prop Js.lookup_prop].
  repeat (rewrite decide_False by done).
  rewrite !decide_True by done.
  cbn [Js.truthy Js.num_gt Js.toNumber].
  destruct (Z.eqb_spec (t + expiry_ms) 0) as [?|_]; [done|]. simpl negb.
  rewrite andb_true_l.
  case_bool_decide as Hnow.
  - destruct (Z.ltb_spec (t + expiry_ms) now); [lia|]. done.
  - destruct (Z.ltb_spec (t + expiry_ms) now); [|lia]. done.
Qed.

Lemma getCachedScoutData_quota (pid : string) (now : Z) (st : LocalStorage.t) :
  LocalStorage.quotaExceeded (snd (getCachedScoutData pid now st))
  = LocalStorage.quotaExceeded st.
Proof.
  unfold getCachedScoutData.
  repeat case_match; done.
Qed.

(** A response without a success status is not cached: the call is
    rejected after the request has been sent, and the store is the one the
    cache lookup left. *)
Lemma fetchScout_http_error (server : string → response) (pid : string)
    (clk : Clock) (w : World) (status : Z) (body : Dom.node) :
  uncached pid (at_lookup clk) (localStorage w) →
  server (scoutUrl pid) = HttpResponse status body →
  response_ok status = false →
  fetchScout server pid clk w
  = (RejectedHttp status,
     mkWorld (snd (getCachedScoutData pid (at_lookup clk) (localStorage w)))
       (requests w ++ [scoutUrl pid])).
Proof.
  unfold uncached, fetchScout. intros Hmiss Hsrv Hok.
  destruct (getCachedScoutData pid (at_lookup clk) (localStorage w))
    as [cachedData st].
  simpl in Hmiss. by rewrite Hmiss, Hsrv, Hok.
Qed.

End CacheFacts.

(** C2: for every player id and every scout record, when the storage
    accepts the write and the clock reads [t >= 0] at [set], a later [get]
    for the same id returns a record whose fields read as the stored ones
    as long as the clock is not past [expires = t + 30 days], and leaves
    the store untouched; once the clock is past [expires], [get] returns
    [null] and the entry is removed from the store. *)
Theorem cache_get_after_set (pid : string) (r : ScoutRecord)
    (t t_cached now : Z) (st : LocalStorage.t) :
  LocalStorage.quotaExceeded st = false →
  0 ≤ t →
  let st1 := setCachedScoutData pid (value_of_record r) t t_cached st in
  let key := getCacheKey pid in
  (getCachedScoutData pid now st1 =
     if bool_decide (now ≤ t + 30 * 24 * 60 * 60 * 1000)
     then (Js.json_of (value_of_record r), st1)
     else (Js.VNull, LocalStorage.removeItem key st1))
  ∧ reads_as (Js.json_of (value_of_record r)) r
  ∧ LocalStorage.getItem key (LocalStorage.removeItem key st1) = None
  ∧ (t_cached = t →
     LocalStorage.getItem key st1 =
       Some (Js.JsonText
               (Js.VObj [ ("scoutData", Js.json_of (value_of_record r));
                          ("expires", Js.VNum (t_cached + 30 * 24 * 60 * 60 * 1000));
                          ("cached", Js.VNum t_cached) ]))).
Proof.
  intros Hq Ht st1 key.
  pose proof expiry_ms_pos as Hpos.
  split; [|split; [|split]].
  - apply (get_after_set pid r t t_cached now st Hq). lia.
  - apply reads_as_json_of_record.
  - unfold LocalStorage.getItem, LocalStorage.removeItem. cbn.
    apply lookup_delete_eq.
  - intros ->. subst st1 key.
    rewrite (setCachedScoutData_accepted pid r t t st Hq).
    unfold LocalStorage.getItem. cbn [LocalStorage.items].
    by rewrite lookup_insert_eq.
Qed.

Lemma cache_get_after_set_witness :
  getCachedScoutData "4711" 1700000000001
    (setCachedScoutData "4711" (value_of_record SampleCache.record)
       1700000000000 1700000000000 SampleCache.empty)
  = (Js.json_of (value_of_record SampleCache.record),
     setCachedScoutData "4711" (value_of_record SampleCache.record)
       1700000000000 1700000000000 SampleCache.empty).
Proof.
  apply (cache_get_after_set "4711" SampleCache.record
           1700000000000 1700000000000 1700000000001 SampleCache.empty).
  - reflexivity.
  - lia.
Defined.

(** C5: for every player id whose cache lookup misses, when the server
    answers the request with a success status and the storage accepts the
    write, two consecutive calls of [fetchScout] (the second within the
    expiry window) issue exactly one request: the first call sends it,
    parses the body, stores and returns the record; the second returns the
    stored record and sends nothing. *)
Theorem fetch_twice_one_request (server : string → response) (pid : string)
    (clk1 clk2 : Clock) (w : World) (status : Z) (body : Dom.node) :
  uncached pid (at_lookup clk1) (localStorage w) →
  server (scoutUrl pid) = HttpResponse status body →
  response_ok status = true →
  LocalStorage.quotaExceeded (localStorage w) = false →
  at_lookup clk2 ≤ at_expiry clk1 + 30 * 24 * 60 * 60 * 1000 →
  let first := fetchScout server pid clk1 w in
  let second := fetchScout server pid clk2 (snd first) in
  let scoutData := parseScoutHTML body in
  fst first = Fulfilled (value_of_record scoutData)
  ∧ requests (snd first) = requests w ++ [scoutUrl pid]
  ∧ fst second = Fulfilled (Js.json_of (value_of_record scoutData))
  ∧ reads_as (Js.json_of (value_of_record scoutData)) scoutData
  ∧ requests (snd second) = requests w ++ [scoutUrl pid]
  ∧ localStorage (snd second) = localStorage (snd first).
Proof.
  intros Hmiss Hsrv Hok Hq Hnow first second scoutData.
  assert (Hfirst : first =
    (Fulfilled (value_of_record scoutData),
     mkWorld (setCachedScoutData pid (value_of_record scoutData)
                (at_expiry clk1) (at_cached clk1)
                (snd (getCachedScoutData pid (at_lookup clk1) (localStorage w))))
       (requests w ++ [scoutUrl pid]))).
  { subst first. unfold fetchScout. unfold uncached in Hmiss.
    destruct (getCachedScoutData pid (at_lookup clk1) (localStorage w))
      as [cachedData st] eqn:Hget.
    simpl in Hmiss. rewrite Hmiss, Hsrv, Hok. reflexivity. }
  pose proof (getCachedScoutData_quota pid (at_lookup clk1) (localStorage w))
    as Hq'.
  rewrite Hq in Hq'.
  set (st := snd (getCachedScoutData pid (at_lookup clk1) (localStorage w))) in *.
  assert (Hsecond : second =
    (Fulfilled (Js.json_of (value_of_record scoutData)),
     mkWorld (setCachedScoutData pid (value_of_record scoutData)
                (at_expiry clk1) (at_cached clk1) st)
       (requests w ++ [scoutUrl pid]))).
  { subst second. rewrite Hfirst. unfold fetchScout.
    cbn [snd localStorage requests].
    destruct (decide (at_expiry clk1 + expiry_ms = 0)) as [Hz|Hnz].
    - (* an entry whose [expires] is 0 never expires *)
      rewrite (setCachedScoutData_accepted pid scoutData _ _ st Hq').
      unfold getCachedScoutData, LocalStorage.getItem.
      cbn [LocalStorage.items]. rewrite lookup_insert_eq, Hz.
      reflexivity.
    - rewrite (get_after_set pid scoutData (at_expiry clk1) (at_cached clk1)
                 (at_lookup clk2) st Hq' Hnz).
      rewrite bool_decide_eq_true_2 by exact Hnow.
      reflexivity. }
  rewrite Hfirst, Hsecond. cbn [fst snd requests localStorage].
  pose proof (reads_as_json_of_record scoutData) as Hreads.
  done.
Qed.

Lemma fetch_twice_one_request_witness :
  let clk1 := mkClock 1700000000000 1700000000350 1700000000350 in
  let clk2 := mkClock 1700000000900 1700000000900 1700000000900 in
  let w := mkWorld SampleCache.empty [] in
  requests (snd (fetchScout SampleCache.server "4711" clk2
                   (snd (fetchScout SampleCache.server "4711" clk1 w))))
  = [scoutUrl "4711"].
Proof.
  intros clk1 clk2 w.
  apply (fetch_twice_one_request SampleCache.server "4711" clk1 clk2 w
           200 (Sample.lit_stars 3)).
  - reflexivity.
  - reflexivity.
  - reflexivity.
  - reflexivity.
  - vm_compute. discriminate.
Defined.

(** ** Flag placement *)

Section RowFacts.

Local Open Scope nat_scope.

(** Updating the positions of a duplicate-free list one by one. *)
Lemma fold_alter_lookup {A} (f : A → A) (l : list nat) (r : list A) (j : nat) :
  NoDup l →
  fold_left (fun r i => alter f i r) l r !! j
  = if decide (j ∈ l) then f <$> r !! j else r !! j.
Proof.
  intros Hl. revert r.
  induction Hl as [|a l Ha Hl IH]; intros r.
  - done.
  - cbn [fold_left]. rewrite IH.
    destruct (decide (j = a)) as [->|Hne].
    + rewrite list_lookup_alter_eq.
      repeat case_decide; try done.
      exfalso. apply H0. left.
    + rewrite list_lookup_alter_ne by done.
      repeat case_decide; try done.
      * exfalso. apply H0. by right.
      * exfalso. apply elem_of_cons in H0 as [?|?]; done.
Qed.

Lemma fold_alter_length {A} (f : A → A) (l : list nat) (r : list A) :
  length (fold_left (fun r i => alter f i r) l r) = length r.
Proof.
  revert r. induction l as [|a l IH]; intros r; simpl; [done|].
  by rewrite IH, length_alter.
Qed.

(** The counting loop of [setFlagsInCells] visits the first [m] cells. *)
Lemma fold_seq_take {A} (g : A → A) (cells : list nat) (m : nat) (r : list A) :
  fold_left (fun r i => match cells !! i with
                        | Some j => alter g j r
                        | None => r
                        end) (seq 0 m) r
  = fold_left (fun r j => alter g j r) (take m cells) r.
Proof.
  induction m as [|m IH].
  - by rewrite take_0.
  - rewrite seq_S, fold_left_app, IH. simpl.
    destruct (cells !! m) as [j|] eqn:Hm.
    + by rewrite (take_S_r _ _ _ Hm), fold_left_app.
    + apply lookup_ge_None in Hm.
      by rewrite !take_ge by lia.
Qed.

Lemma take_min_length {A} (n : nat) (l : list A) :
  take (Nat.min n (length l)) l = take n l.
Proof.
  destruct (Nat.min_spec n (length l)) as [[_ ->]|[Hle ->]]; [done|].
  by rewrite firstn_all, take_ge by lia.
Qed.

Lemma NoDup_take_of {A} (n : nat) (l : list A) : NoDup l → NoDup (take n l).
Proof. intros H. eapply sublist_NoDup; [exact H|apply sublist_take]. Qed.

Lemma elem_of_take_elem {A} (x : A) (n : nat) (l : list A) :
  x ∈ take n l → x ∈ l.
Proof.
  rewrite elem_of_take. intros (i & Hi & _).
  by eapply list_elem_of_lookup_2.
Qed.

Lemma clearFlagCells_lookup (cells : list nat) (r : Row) (j : nat) :
  NoDup cells →
  clearFlagCells cells r !! j
  = if decide (j ∈ cells) then clearCell <$> r !! j else r !! j.
Proof. apply fold_alter_lookup. Qed.

(** The row after [setFlagsInCells], cell by cell. *)
Lemma setFlagsInCells_lookup (cells : list nat) (c : color) (n : nat)
    (r : Row) (j : nat) :
  NoDup cells →
  setFlagsInCells cells c n r !! j = cellAfter cells c n j <$> r !! j.
Proof.
  intros Hnd. unfold setFlagsInCells.
  rewrite fold_seq_take, take_min_length.
  rewrite fold_alter_lookup by by apply NoDup_take_of.
  rewrite clearFlagCells_lookup by done.
  unfold cellAfter.
  destruct (decide (j ∈ take n cells)) as [Hin|Hnin].
  - rewrite decide_True by by eapply elem_of_take_elem.
    by destruct (r !! j).
  - destruct (decide (j ∈ cells)); by destruct (r !! j).
Qed.

(** *** Positions of the cells selected by a test *)

Lemma elem_of_positions {A} (p : A → bool) (l : list A) (i j : nat) :
  j ∈ positions p i l ↔ i ≤ j ∧ ∃ x, l !! (j - i)%nat = Some x ∧ p x = true.
Proof.
  revert i. induction l as [|y l IH]; intros i; simpl.
  - split; [by intros ?%elem_of_nil|]. by intros (_ & x & ? & _).
  - rewrite elem_of_app, IH. split.
    + intros [Hhere|(Hle & x & Hx & Hp)].
      * destruct (p y) eqn:Hy; [|by apply elem_of_nil in Hhere].
        apply list_elem_of_singleton in Hhere as ->.
        split; [lia|]. exists y. by rewrite Nat.sub_diag.
      * split; [lia|]. exists x. split; [|done].
        by replace (j - i)%nat with (S (j - S i)) by lia.
    + intros (Hle & x & Hx & Hp).
      destruct (decide (j = i)) as [->|Hne].
      * left. rewrite Nat.sub_diag in Hx. simpl in Hx.
        injection Hx as ->. rewrite Hp. left.
      * right. split; [lia|]. exists x. split; [|done].
        by replace (j - i)%nat with (S (j - S i)) in Hx by lia.
Qed.

Lemma positions_NoDup {A} (p : A → bool) (l : list A) (i : nat) :
  NoDup (positions p i l).
Proof.
  revert i. induction l as [|y l IH]; intros i; simpl; [constructor|].
  destruct (p y); simpl; [|apply IH].
  constructor; [|apply IH].
  rewrite elem_of_positions. lia.
Qed.

Lemma positions_fmap {A B} (f : A → B) (p : B → bool) (l : list A) (i : nat) :
  positions p i (f <$> l) = positions (fun x => p (f x)) i l.
Proof.
  revert i. induction l as [|y l IH]; intros i; simpl; [done|].
  by rewrite IH.
Qed.

(** *** The flag cells of a row *)

Lemma getFlagCells_NoDup (r : Row) : NoDup (getFlagCells r).
Proof.
  unfold getFlagCells. destruct (4 <=? length r)%nat.
  - apply NoDup_ListNoDup.
    repeat constructor; simpl; intuition discriminate.
  - apply NoDup_take_of, positions_NoDup.
Qed.

(** The flag cells depend on the number of cells and their widths only. *)
Lemma getFlagCells_shape (r r' : Row) :
  cell_width <$> r = cell_width <$> r' → getFlagCells r = getFlagCells r'.
Proof.
  intros Hshape. unfold getFlagCells.
  assert (Hlen : length r = length r').
  { by rewrite <- (length_fmap cell_width r), Hshape, length_fmap. }
  rewrite Hlen. destruct (4 <=? length r')%nat; [done|].
  f_equal.
  set (wide := fun w : option string =>
                 bool_decide (w = Some "7") || bool_decide (w = Some "6")).
  assert (E : ∀ l : Row,
             positions width_6_or_7 0 l = positions wide 0 (cell_width <$> l)).
  { intros l. by rewrite positions_fmap. }
  by rewrite !E, Hshape.
Qed.

Lemma cellAfter_width (cells : list nat) (c : color) (n j : nat) (x : Cell) :
  cell_width (cellAfter cells c n j x) = cell_width x.
Proof. unfold cellAfter. by repeat case_decide. Qed.

Lemma placeRow_lookup (c : color) (n : nat) (r : Row) (j : nat) :
  placeRow c n r !! j = cellAfter (getFlagCells r) c n j <$> r !! j.
Proof. apply setFlagsInCells_lookup, getFlagCells_NoDup. Qed.

Lemma placeRow_shape (c : color) (n : nat) (r : Row) :
  cell_width <$> placeRow c n r = cell_width <$> r.
Proof.
  apply list_eq. intros j.
  rewrite !list_lookup_fmap, placeRow_lookup.
  destruct (r !! j); [|done]. simpl. by rewrite cellAfter_width.
Qed.

Lemma placeRow_length (c : color) (n : nat) (r : Row) :
  length (placeRow c n r) = length r.
Proof.
  by rewrite <- (length_fmap cell_width), placeRow_shape, length_fmap.
Qed.

Lemma getFlagCells_placeRow (c : color) (n : nat) (r : Row) :
  getFlagCells (placeRow c n r) = getFlagCells r.
Proof. apply getFlagCells_shape, placeRow_shape. Qed.

Lemma cellAfter_absorb (cells : list nat) (c c' : color) (n n' j : nat)
    (x : Cell) :
  cellAfter cells c n j (cellAfter cells c' n' j x) = cellAfter cells c n j x.
Proof.
  unfold cellAfter.
  destruct (decide (j ∈ take n cells)) as [Hin|Hnin].
  - by repeat case_decide.
  - destruct (decide (j ∈ cells)) as [Hc|Hc].
    + by repeat case_decide.
    + rewrite decide_False; [done|].
      intros H. by apply Hc, (elem_of_take_elem _ n').
Qed.

(** A placement overwrites whatever an earlier placement left. *)
Lemma placeRow_absorb (c c' : color) (n n' : nat) (r : Row) :
  placeRow c n (placeRow c' n' r) = placeRow c n r.
Proof.
  apply list_eq. intros j.
  rewrite !placeRow_lookup, getFlagCells_placeRow.
  destruct (r !! j); [|done]. simpl. by rewrite cellAfter_absorb.
Qed.

Lemma placeHigh_placeRow (n : nat) (r : Row) : placeHigh n r = placeRow green n r.
Proof. reflexivity. Qed.

(** The extra [clearFlagCells] of the low pass changes nothing. *)
Lemma placeLow_placeRow (c : color) (n : nat) (r : Row) :
  placeLow (c, n) r = placeRow c n r.
Proof.
  apply list_eq. intros j. unfold placeLow. cbn [fst snd].
  rewrite setFlagsInCells_lookup, clearFlagCells_lookup, placeRow_lookup
    by apply getFlagCells_NoDup.
  unfold cellAfter.
  destruct (decide (j ∈ getFlagCells r)); destruct (r !! j); simpl; try done;
    by repeat case_decide.
Qed.

(** *** The name of a row after a placement *)








(** *** Rows whose name is settled *)

Lemma concat_imap_nil {A B} (f : nat → A → list B) (l : list A) :
  (∀ j x, l !! j = Some x → f j x = []) → concat (imap f l) = [].
Proof.
  revert f. induction l as [|a l IH]; intros f H; [done|].
  simpl. rewrite (H 0 a) by done. simpl.
  apply IH. intros j x Hx. by apply (H (S j)).
Qed.

Lemma head_concat_imap {A B} (f g : nat → A → list B) (l : list A)
    (j0 : nat) (x0 : A) :
  l !! j0 = Some x0 →
  f j0 x0 ≠ [] →
  g j0 x0 = f j0 x0 →
  (∀ j x, j < j0 → l !! j = Some x → f j x = [] ∧ g j x = []) →
  head (concat (imap g l)) = head (concat (imap f l)).
Proof.
  revert f g j0. induction l as [|a l IH]; intros f g j0 Hx0 Hne Heq Hbefore;
    [done|].
  destruct j0 as [|j0]; simpl in *.
  - injection Hx0 as ->. rewrite Heq.
    destruct (f 0 x0); [done|]. done.
  - destruct (Hbefore 0 a) as [-> ->]; [lia|done|]. simpl.
    apply (IH (f ∘ S) (g ∘ S) j0); try done.
    intros j x Hj Hx. apply (Hbefore (S j)); [lia|done].
Qed.

(** Only the first cell shows a name span: the row keeps its name, or
    loses it when the first cell is a flag cell. *)
Lemma name_settled_first_cell (nested : bool) (r : Row) :
  (∀ j x, r !! j = Some x → j ≠ 0 → cellSpans nested j x = []) →
  name_settled nested r.
Proof.
  intros H. unfold name_settled, keptName, rowName, keptSpans, rowSpans.
  destruct r as [|x0 r]; [by left|].
  cbn [imap concat].
  rewrite !(concat_imap_nil _ r), !app_nil_r.
  - case_decide; [by left|by right].
  - intros j x Hx. by apply (H (S j)).
  - intros j x Hx. unfold compose. case_decide; [done|].
    by apply (H (S j)).
Qed.

(** The span that names the row lies outside the flag cells: the row
    keeps its name. *)
Lemma name_settled_outside (nested : bool) (r : Row) (j0 : nat) (x0 : Cell) :
  r !! j0 = Some x0 →
  cellSpans nested j0 x0 ≠ [] →
  (∀ j x, j < j0 → r !! j = Some x → cellSpans nested j x = []) →
  j0 ∉ getFlagCells r →
  name_settled nested r.
Proof.
  intros Hx0 Hne Hbefore Hout. right.
  unfold keptName, rowName, keptSpans, rowSpans.
  rewrite (head_concat_imap (cellSpans nested) _ r j0 x0); try done.
  - by rewrite decide_False.
  - intros j x Hj Hx. rewrite (Hbefore j x Hj Hx). by case_decide.
Qed.

Lemma node_Forall_ind (P : Dom.node → Prop) :
  (∀ s, P (Dom.Text s)) →
  (∀ t a ch, Forall P ch → P (Dom.Elem t a ch)) →
  ∀ n, P n.
Proof.
  intros Htext Helem. fix IH 1. intros [s|t a ch]; [apply Htext|].
  apply Helem. induction ch as [|c ch IHch]; constructor; [apply IH|exact IHch].
Qed.

(** Without a first-child [td] above it and without a [td] below it, a
    node shows no name span. *)
Lemma nameSpans_td_free (n : Dom.node) :
  td_free n = true → nameSpans false n = [].
Proof.
  induction n as [s|t a ch IH] using node_Forall_ind; [done|].
  cbn [td_free nameSpans]. intros Hfree. generalize true. revert Hfree.
  induction IH as [|c ch Hc _ IHch]; intros Hfree first; [done|].
  simpl in Hfree.
  apply andb_true_iff in Hfree as [[Htd Hfree_c]%andb_true_iff Hfree].
  apply negb_true_iff in Htd.
  rewrite Htd, andb_false_r. cbn [orb andb].
  rewrite (Hc Hfree_c). cbn [app]. by apply IHch.
Qed.

(** The ordinary layout: the table is not inside a first cell and its
    cells hold no [td]; then only first cells name rows. *)
Lemma name_settled_plain (r : Row) :
  (∀ x, x ∈ r → td_free (td_node x) = true) → name_settled false r.
Proof.
  intros Hfree. apply name_settled_first_cell.
  intros j x Hx Hj. unfold cellSpans.
  rewrite bool_decide_eq_false_2 by done. cbn [orb].
  apply nameSpans_td_free, Hfree. by eapply list_elem_of_lookup_2.
Qed.

End RowFacts.

Section TableFacts.

Local Open Scope nat_scope.

Variable nested : bool.

(** [nameToRows] files every row under its name, in document order. *)
Lemma nameToRows_from_lookup (rows : Table) (i : nat)
    (m : gmap string (list nat)) (k : string) :
  default [] (nameToRows_from nested i rows m !! k)
  = default [] (m !! k) ++ rowsNamed nested k i rows.
Proof.
  revert i m. induction rows as [|tr rows IH]; intros i m.
  - simpl. by rewrite app_nil_r.
  - cbn [nameToRows_from]. rewrite IH. unfold rowsNamed. cbn [positions].
    rewrite app_assoc. f_equal.
    destruct (rowName nested tr) as [key|]; [|by rewrite app_nil_r].
    destruct (decide (key = k)) as [->|Hne].
    + rewrite lookup_insert_eq, bool_decide_eq_true_2 by done. done.
    + rewrite lookup_insert_ne by done.
      rewrite bool_decide_eq_false_2 by congruence.
      by rewrite app_nil_r.
Qed.

Lemma nameToRows_lookup (tbl : Table) (k : string) :
  default [] (nameToRows nested tbl !! k) = rowsNamed nested k 0 tbl.
Proof.
  unfold nameToRows. by rewrite nameToRows_from_lookup, lookup_empty.
Qed.

Lemma elem_of_rowsNamed (tbl : Table) (k : string) (i : nat) (r : Row) :
  tbl !! i = Some r →
  i ∈ rowsNamed nested k 0 tbl ↔ rowName nested r = Some k.
Proof.
  intros Hr. unfold rowsNamed. rewrite elem_of_positions, Nat.sub_0_r.
  split.
  - intros (_ & x & Hx & Hp). rewrite Hr in Hx. injection Hx as <-.
    by apply bool_decide_eq_true in Hp.
  - intros Hk. split; [lia|]. exists r. split; [done|].
    by apply bool_decide_eq_true.
Qed.

Lemma rowsNamed_NoDup (tbl : Table) (k : string) : NoDup (rowsNamed nested k 0 tbl).
Proof. apply positions_NoDup. Qed.

(** One [for (const skill of ...)] loop, seen from one row. *)
Lemma flagPass_lookup (m : gmap string (list nat)) (body : Row → Row)
    (skills : list string) (t : Table) (i : nat) :
  (∀ k, NoDup (default [] (m !! k))) →
  flagPass m body skills t !! i
  = (fun r => fold_left
                (fun r s => if decide (i ∈ default [] (m !! norm s))
                            then body r else r) skills r) <$> t !! i.
Proof.
  intros Hnd. unfold flagPass. revert t.
  induction skills as [|s skills IH]; intros t.
  - simpl. by destruct (t !! i).
  - cbn [fold_left]. rewrite IH.
    assert (Hstep :
      match m !! norm s with
      | Some trs => fold_left (fun t' tr => alter body tr t') trs t
      | None => t
      end !! i
      = if decide (i ∈ default [] (m !! norm s))
        then body <$> t !! i else t !! i).
    { specialize (Hnd (norm s)).
      destruct (m !! norm s) as [trs|]; simpl in *.
      - by apply fold_alter_lookup.
      - done. }
    rewrite Hstep.
    destruct (decide (i ∈ default [] (m !! norm s))); by destruct (t !! i).
Qed.

Lemma fold_body_absorb (body : Row → Row) (test : string → bool)
    (skills : list string) (r : Row) :
  (∀ r, body (body r) = body r) →
  fold_left (fun r s => if test s then body r else r) skills r
  = if existsb test skills then body r else r.
Proof.
  intros Hbody. revert r.
  induction skills as [|s skills IH]; intros r; [done|].
  cbn [fold_left existsb]. rewrite IH.
  destruct (test s); simpl; [|done].
  rewrite Hbody. by destruct (existsb test skills).
Qed.

Lemma existsb_named (skills : list string) (k : string) :
  existsb (fun s => bool_decide (Some k = Some (norm s))) skills
  = bool_decide (k ∈ norm <$> skills).
Proof.
  induction skills as [|s skills IH]; [done|].
  cbn [existsb fmap list_fmap]. rewrite IH.
  apply eq_true_iff_eq.
  rewrite orb_true_iff, !bool_decide_eq_true, elem_of_cons.
  split; intros [H|H]; auto; left; congruence.
Qed.

Lemma existsb_unnamed (skills : list string) :
  existsb (fun s => bool_decide (@None string = Some (norm s))) skills = false.
Proof. induction skills as [|s skills IH]; [done|]. simpl. exact IH. Qed.

Lemma fold_left_pointwise {A B} (f g : A → B → A) (l : list B) (a : A) :
  (∀ a b, f a b = g a b) → fold_left f l a = fold_left g l a.
Proof.
  intros Hfg. revert a. induction l as [|b l IH]; intros a; [done|].
  simpl. by rewrite Hfg, IH.
Qed.

(** A pass whose body absorbs itself runs the body once on every row
    whose name is among the skills, and leaves the other rows alone. *)
Lemma flagPass_row (tbl t : Table) (body : Row → Row)
    (skills : list string) (i : nat) (r0 : Row) :
  (∀ r, body (body r) = body r) →
  tbl !! i = Some r0 →
  flagPass (nameToRows nested tbl) body skills t !! i
  = (fun r => if named_in nested skills r0 then body r else r) <$> t !! i.
Proof.
  intros Hbody Hr0.
  rewrite flagPass_lookup
    by (intros k; rewrite nameToRows_lookup; apply rowsNamed_NoDup).
  destruct (t !! i) as [r|]; [|done]. simpl. f_equal.
  rewrite (fold_left_pointwise _
             (fun r s => if bool_decide (rowName nested r0 = Some (norm s))
                         then body r else r)).
  - rewrite (fold_body_absorb body
               (fun s => bool_decide (rowName nested r0 = Some (norm s)))) by done.
    unfold named_in. destruct (rowName nested r0) as [k|].
    + by rewrite existsb_named.
    + by rewrite existsb_unnamed.
  - intros a s. rewrite nameToRows_lookup.
    pose proof (elem_of_rowsNamed tbl (norm s) i r0 Hr0) as Hiff.
    case_decide as Hin; case_bool_decide as Hname; try done.
    + by apply Hiff in Hin.
    + by apply Hiff in Hname.
Qed.

Lemma flagPass_length (m : gmap string (list nat)) (body : Row → Row)
    (skills : list string) (t : Table) :
  length (flagPass m body skills t) = length t.
Proof.
  unfold flagPass. revert t.
  induction skills as [|s skills IH]; intros t; [done|].
  cbn [fold_left]. rewrite IH.
  destruct (m !! norm s); [|done]. apply fold_alter_length.
Qed.

Lemma placeRow_idem (c : color) (n : nat) (r : Row) :
  placeRow c n (placeRow c n r) = placeRow c n r.
Proof. apply placeRow_absorb. Qed.

Lemma placeLow_idem (spec : color * nat) (r : Row) :
  placeLow spec (placeLow spec r) = placeLow spec r.
Proof. destruct spec as [c n]. by rewrite !placeLow_placeRow, placeRow_idem. Qed.

(** The whole of [applyFlagsToContainer], row by row: each row receives
    the placement its name calls for, or is left as it was. *)
Lemma applyFlagsToContainer_lookup (tbl : Table) (hi lo : list string)
    (sh sl : option Z) (i : nat) :
  applyFlagsToContainer nested tbl hi lo sh sl !! i
  = rowAfter nested hi lo sh sl <$> tbl !! i.
Proof.
  destruct (tbl !! i) as [r0|] eqn:Hr0.
  - assert (Hne : tbl ≠ []) by (intros ->; done).
    unfold applyFlagsToContainer.
    destruct tbl as [|row0 rest] eqn:Htbl; [done|]. rewrite <- Htbl in *.
    set (t1 := if (0 <? highCount sh)%nat
               then flagPass (nameToRows nested tbl) (placeHigh (highCount sh)) hi tbl
               else tbl).
    assert (Ht1 : t1 !! i =
              Some (if (0 <? highCount sh)%nat && named_in nested hi r0
                    then placeRow green (highCount sh) r0 else r0)).
    { subst t1. destruct (0 <? highCount sh)%nat; simpl; [|done].
      rewrite (flagPass_row tbl tbl _ hi i r0); [|apply placeRow_idem|done].
      rewrite Hr0. simpl. by destruct (named_in nested hi r0). }
    unfold rowAfter, instruction, named_in in *.
    destruct (lowSpec sl) as [[c n]|].
    + rewrite (flagPass_row tbl t1 _ lo i r0); [|apply placeLow_idem|done].
      rewrite Ht1. simpl. unfold named_in.
      destruct (rowName nested r0) as [k|]; simpl.
      * destruct (bool_decide (k ∈ norm <$> lo)).
        -- rewrite placeLow_placeRow.
           destruct ((0 <? highCount sh)%nat && bool_decide (k ∈ norm <$> hi));
             [by rewrite placeRow_absorb|done].
        -- by destruct ((0 <? highCount sh)%nat && bool_decide (k ∈ norm <$> hi)).
      * by rewrite andb_false_r.
    + rewrite Ht1. simpl.
      destruct (rowName nested r0) as [k|]; simpl.
      * by destruct ((0 <? highCount sh)%nat && bool_decide (k ∈ norm <$> hi)).
      * by rewrite andb_false_r.
  - simpl. apply lookup_ge_None. apply lookup_ge_None in Hr0.
    unfold applyFlagsToContainer.
    destruct tbl as [|row0 rest] eqn:Htbl; [simpl; lia|]. rewrite <- Htbl in *.
    destruct (lowSpec sl); destruct (0 <? highCount sh)%nat;
      rewrite ?flagPass_length; done.
Qed.

End TableFacts.

Section PlacementFacts.

Local Open Scope nat_scope.

Variable nested : bool.






End PlacementFacts.

Section ApplyFlagsFacts.

Local Open Scope nat_scope.

Variable nested : bool.




End ApplyFlagsFacts.



(** C4 (the code at the failing input): [normalizeSkillName] sends both
    "Goalkeeping" and "Keeping" to "keeping", and [mapNameToRow] files the
    "Keeping" row under that key, but [applyFlagsToContainer] looks rows up
    with its own [norm] (trim and lower case, no alias table): the report
    skill "Goalkeeping" with four stars leaves the "Keeping" row without
    any flag, while the skill "Keeping" gives it three green flags. *)
Theorem goalkeeping_row_not_flagged (nested : bool) :
  normalizeSkillName "Goalkeeping" = "keeping"
  ∧ normalizeSkillName "Keeping" = "keeping"
  ∧ snd <$> default [] (mapNameToRow nested SampleTable.keeper
                          !! normalizeSkillName "Goalkeeping") = [0%nat]
  ∧ norm "Goalkeeping" ≠ norm "Keeping"
  ∧ applyFlagsToContainer nested SampleTable.keeper
      ["Goalkeeping"] [] (Some 4) None
    = SampleTable.keeper
  ∧ flagsOf <$> applyFlagsToContainer nested SampleTable.keeper
                  ["Keeping"] [] (Some 4) None
    = [[green; green; green]].
Proof. destruct nested; repeat split; try reflexivity; discriminate. Qed.







(** * Further properties *)

(** ** Normaliser *)

Section NormaliserFacts.

Import JsString.

Lemma trimStartL_blank_prefix (p l : list ascii) :
  forallb is_ws p = true → trimStartL (p ++ l) = trimStartL l.
Proof.
  induction p as [|c p IH]; [done|].
  simpl. intros [Hc Hp]%andb_true_iff. rewrite Hc. by apply IH.
Qed.

Lemma forallb_rev {A} (f : A → bool) (l : list A) :
  forallb f (rev l) = forallb f l.
Proof.
  induction l as [|x l IH]; [done|].
  simpl. rewrite forallb_app, IH. simpl.
  rewrite andb_true_r. apply andb_comm.
Qed.

Lemma trimL_blank_around (p l q : list ascii) :
  forallb is_ws p = true → forallb is_ws q = true →
  trimL (p ++ l ++ q) = trimL l.
Proof.
  intros Hp Hq. unfold trimL.
  rewrite (trimStartL_blank_prefix p (l ++ q) Hp).
  destruct (trimStartL_split l) as [p' Hl].
  destruct (trimStartL l) as [|c l'] eqn:Hts.
  - (* [l] is blank: so is [l ++ q] *)
    assert (Hblank : forallb is_ws l = true).
    { clear -Hts. induction l as [|c l IH]; [done|].
      simpl in *. destruct (is_ws c); [by apply IH|done]. }
    assert (Hall : trimStartL (l ++ q) = []).
    { rewrite <- (app_nil_r (l ++ q)), <- app_assoc.
      rewrite trimStartL_blank_prefix by done.
      clear -Hq. induction q as [|c q IH]; [done|].
      simpl in *. apply andb_true_iff in Hq as [-> Hq]. by apply IH. }
    by rewrite Hall.
  - (* the trimmed start of [l ++ q] is that of [l], followed by [q] *)
    assert (Happ : trimStartL (l ++ q) = (c :: l') ++ q).
    { clear -Hts. induction l as [|d l IH]; [done|].
      simpl in *. destruct (is_ws d); [by apply IH|].
      by injection Hts as -> ->. }
    rewrite Happ, rev_app_distr.
    rewrite trimStartL_blank_prefix by by rewrite forallb_rev.
    done.
Qed.

Lemma list_ascii_of_string_app (s1 s2 : string) :
  list_ascii_of_string (s1 ++ s2)%string
  = list_ascii_of_string s1 ++ list_ascii_of_string s2.
Proof.
  induction s1 as [|c s1 IH]; [done|].
  change (c :: list_ascii_of_string (s1 ++ s2)%string
          = c :: (list_ascii_of_string s1 ++ list_ascii_of_string s2)).
  by rewrite IH.
Qed.

Lemma trim_blank_around (p s q : string) :
  blank p = true → blank q = true → trim (p ++ s ++ q)%string = trim s.
Proof.
  intros Hp Hq. unfold trim.
  by rewrite !list_ascii_of_string_app, trimL_blank_around.
Qed.

Lemma norm_toLowerCase (s s' : string) :
  toLowerCase s = toLowerCase s' → norm s = norm s'.
Proof.
  unfold norm, toLowerCase, trim. intros H.
  apply (f_equal list_ascii_of_string) in H.
  rewrite !list_ascii_of_string_of_list_ascii in H.
  rewrite !list_ascii_of_string_of_list_ascii.
  by rewrite <- !trimL_lower, H.
Qed.

Lemma trim_idem (s : string) : trim (trim s) = trim s.
Proof.
  unfold trim. by rewrite list_ascii_of_string_of_list_ascii, trimL_idem.
Qed.

End NormaliserFacts.

(** X1: the canonical key ignores letter case and surrounding white
    space: a name that differs from [x] only in the case of its letters,
    wrapped in any white space, gets the key of [x]. *)
Theorem normalizeSkillName_insensitive (p q x y : string) :
  blank p = true → blank q = true →
  JsString.toLowerCase y = JsString.toLowerCase x →
  normalizeSkillName (p ++ y ++ q)%string = normalizeSkillName x.
Proof.
  intros Hp Hq Hcase.
  assert (Hnorm : norm (p ++ y ++ q)%string = norm x).
  { unfold norm. rewrite trim_blank_around by done.
    by apply norm_toLowerCase. }
  unfold normalizeSkillName. by rewrite Hnorm.
Qed.

Lemma normalizeSkillName_insensitive_witness :
  normalizeSkillName ("  " ++ "BALL Control" ++ " ")%string
  = normalizeSkillName "ball control".
Proof.
  apply normalizeSkillName_insensitive; reflexivity.
Defined.

(** X2: the alias table renames one key only: the canonical key of a name
    is its trimmed lower-case form, except that "goalkeeping" becomes
    "keeping". *)
Theorem normalizeSkillName_only_alias (x : string) :
  normalizeSkillName x
  = if decide (norm x = "goalkeeping") then "keeping" else norm x.
Proof.
  unfold normalizeSkillName.
  destruct (decide (norm x = "goalkeeping")) as [->|Hne]; [reflexivity|].
  destruct (Map_get SKILL_NAME_ALIAS (norm x)) as [v|] eqn:Hget; [|done].
  apply Map_get_In in Hget.
  assert (Hall : Forall (fun kv => kv.1 = "goalkeeping"
                                   ∨ (kv.2 = kv.1 ∧ JsString.truthy kv.2 = true))
                   SKILL_NAME_ALIAS).
  { repeat (apply List.Forall_cons; [simpl; auto|]). apply List.Forall_nil. }
  rewrite Forall_forall in Hall.
  destruct (Hall _ Hget) as [?|[Hv Ht]]; simpl in *; [done|].
  by rewrite Ht.
Qed.

(** ** Cache *)

Section CacheMoreFacts.

Lemma startsWithL_app (p l : list ascii) : JsString.startsWithL p (p ++ l) = true.
Proof.
  induction p as [|c p IH]; [by destruct l|].
  simpl. by rewrite decide_True.
Qed.

Lemma getCacheKey_prefixed (pid : string) :
  startsWith (getCacheKey pid) CACHE_KEY_PREFIX = true.
Proof.
  unfold startsWith, getCacheKey.
  rewrite list_ascii_of_string_app. apply startsWithL_app.
Qed.

Lemma getCacheKey_inj (pid pid' : string) :
  getCacheKey pid = getCacheKey pid' → pid = pid'.
Proof.
  unfold getCacheKey. intros H.
  by repeat apply String.app_inj in H.
Qed.

(** The value a lookup returns depends on the item under its key only. *)
Lemma getCachedScoutData_value (pid : string) (now : Z) (st st' : LocalStorage.t) :
  LocalStorage.getItem (getCacheKey pid) st
  = LocalStorage.getItem (getCacheKey pid) st' →
  fst (getCachedScoutData pid now st) = fst (getCachedScoutData pid now st').
Proof.
  unfold getCachedScoutData. intros ->.
  repeat case_match; done.
Qed.

Lemma setCachedScoutData_other (pid : string) (v : Js.value) (t tc : Z)
    (st : LocalStorage.t) (k : string) :
  k ≠ getCacheKey pid →
  LocalStorage.getItem k (setCachedScoutData pid v t tc st)
  = LocalStorage.getItem k st.
Proof.
  intros Hk. unfold setCachedScoutData, LocalStorage.setItem, LocalStorage.getItem.
  destruct (LocalStorage.quotaExceeded st); [done|].
  cbn [LocalStorage.items]. by rewrite lookup_insert_ne.
Qed.

Lemma getCachedScoutData_other (pid : string) (now : Z) (st : LocalStorage.t)
    (k : string) :
  k ≠ getCacheKey pid →
  LocalStorage.getItem k (snd (getCachedScoutData pid now st))
  = LocalStorage.getItem k st.
Proof.
  intros Hk. unfold getCachedScoutData.
  repeat case_match; try done.
  unfold LocalStorage.getItem, LocalStorage.removeItem. cbn.
  by rewrite lookup_delete_ne.
Qed.

(** A lookup that misses keeps missing, at any reading of the clock, in
    the store it leaves. *)
Lemma uncached_persists (pid : string) (now now' : Z) (st : LocalStorage.t) :
  uncached pid now st →
  uncached pid now' (snd (getCachedScoutData pid now st)).
Proof.
  unfold uncached. intros Hmiss.
  destruct (getCachedScoutData pid now st) as [v st'] eqn:Hget.
  cbn [fst snd] in *.
  unfold getCachedScoutData, LocalStorage.getItem in Hget.
  destruct (LocalStorage.items st !! getCacheKey pid) as [cached|] eqn:Hitem.
  - destruct (Js.text_truthy cached) eqn:Htext; cbn [negb] in Hget.
    + destruct (Js.JSON_parse cached) as [data|] eqn:Hparse.
      * destruct (Js.get_prop data "expires") as [expires|] eqn:Hexp.
        -- destruct (Js.truthy expires && Js.num_gt now expires) eqn:Hgone.
           ++ injection Hget as <- <-.
              unfold getCachedScoutData, LocalStorage.getItem,
                LocalStorage.removeItem.
              cbn [LocalStorage.items]. by rewrite lookup_delete_eq.
           ++ unfold getCachedScoutData, LocalStorage.getItem.
              assert (Hst : st' = st) by (by destruct (Js.get_prop data "scoutData");
                                          injection Hget as _ <-).
              subst st'. rewrite Hitem, Htext. cbn [negb].
              rewrite Hparse, Hexp.
              destruct (Js.truthy expires && Js.num_gt now' expires); [done|].
              destruct (Js.get_prop data "scoutData");
                injection Hget as <-; done.
        -- injection Hget as <- <-.
           unfold getCachedScoutData, LocalStorage.getItem.
           rewrite Hitem, Htext. cbn [negb]. by rewrite Hparse, Hexp.
      * injection Hget as <- <-.
        unfold getCachedScoutData, LocalStorage.getItem.
        rewrite Hitem, Htext. cbn [negb]. by rewrite Hparse.
    + injection Hget as <- <-.
      unfold getCachedScoutData, LocalStorage.getItem.
      by rewrite Hitem, Htext.
  - injection Hget as <- <-.
    unfold getCachedScoutData, LocalStorage.getItem. by rewrite Hitem.
Qed.

End CacheMoreFacts.

(** X3: distinct player ids have distinct cache keys, and every cache key
    lies in the name space that [clearScoutCache] and the statistics
    select by prefix. *)
Theorem getCacheKey_distinct (pid pid' : string) :
  pid ≠ pid' →
  getCacheKey pid ≠ getCacheKey pid'
  ∧ startsWith (getCacheKey pid) CACHE_KEY_PREFIX = true
  ∧ startsWith (getCacheKey pid') CACHE_KEY_PREFIX = true.
Proof.
  intros Hne. split; [|split; apply getCacheKey_prefixed].
  intros H. by apply Hne, getCacheKey_inj.
Qed.

Lemma getCacheKey_distinct_witness : getCacheKey "7" ≠ getCacheKey "71".
Proof. apply (getCacheKey_distinct "7" "71"). discriminate. Defined.

(** X4: a cache lookup never writes: it leaves the entries of all other
    keys and the quota flag as they were, every item found afterwards was
    there before, and it changes the store only when it returns [null]
    (the removal of an expired entry). *)
Theorem getCachedScoutData_never_writes (pid : string) (now : Z)
    (st : LocalStorage.t) :
  let lookup := getCachedScoutData pid now st in
  LocalStorage.quotaExceeded (snd lookup) = LocalStorage.quotaExceeded st
  ∧ (∀ k, k ≠ getCacheKey pid →
          LocalStorage.getItem k (snd lookup) = LocalStorage.getItem k st)
  ∧ (∀ k item, LocalStorage.getItem k (snd lookup) = Some item →
               LocalStorage.getItem k st = Some item)
  ∧ (snd lookup = st
     ∨ (fst lookup = Js.VNull
        ∧ snd lookup = LocalStorage.removeItem (getCacheKey pid) st)).
Proof.
  cbn zeta. split; [apply getCachedScoutData_quota|].
  split; [intros k; apply getCachedScoutData_other|].
  assert (Hcases :
    snd (getCachedScoutData pid now st) = st
    ∨ (fst (getCachedScoutData pid now st) = Js.VNull
       ∧ snd (getCachedScoutData pid now st)
         = LocalStorage.removeItem (getCacheKey pid) st)).
  { unfold getCachedScoutData. repeat case_match; auto. }
  split; [|exact Hcases].
  intros k item. destruct Hcases as [->|[_ ->]]; [done|].
  unfold LocalStorage.getItem, LocalStorage.removeItem. cbn.
  rewrite lookup_delete_Some. by intros [_ ?].
Qed.

(** X5: the cache keeps players apart: storing a record for one player
    (whether or not the write is accepted) does not change what a lookup
    for another player returns. *)
Theorem cache_players_isolated (pid pid' : string) (v : Js.value)
    (t tc now : Z) (st : LocalStorage.t) :
  pid ≠ pid' →
  fst (getCachedScoutData pid' now (setCachedScoutData pid v t tc st))
  = fst (getCachedScoutData pid' now st).
Proof.
  intros Hne. apply getCachedScoutData_value, setCachedScoutData_other.
  intros H. by apply Hne, getCacheKey_inj.
Qed.

Lemma cache_players_isolated_witness :
  fst (getCachedScoutData "8" 1700000000001
         (setCachedScoutData "7" (value_of_record SampleCache.record)
            1700000000000 1700000000000 SampleCache.empty))
  = fst (getCachedScoutData "8" 1700000000001 SampleCache.empty).
Proof.
  apply cache_players_isolated. discriminate.
Defined.

(** X6: a player has one entry and, in a storage that accepts the
    writes, the last write wins: storing twice for the same id leaves the
    store that the second write alone would have produced, and the entry
    of the player is the text of the second value with its own expiry and
    storing times. *)
Theorem setCachedScoutData_overwrites (pid : string) (v v' : Js.value)
    (t tc t' tc' : Z) (st : LocalStorage.t) :
  LocalStorage.quotaExceeded st = false →
  setCachedScoutData pid v' t' tc' (setCachedScoutData pid v t tc st)
  = setCachedScoutData pid v' t' tc' st
  ∧ LocalStorage.getItem (getCacheKey pid)
      (setCachedScoutData pid v' t' tc' (setCachedScoutData pid v t tc st))
    = Some (Js.JSON_stringify
              (Js.VObj [ ("scoutData", v');
                         ("expires", Js.VNum (t' + expiry_ms));
                         ("cached", Js.VNum tc') ])).
Proof.
  intros Hq.
  unfold setCachedScoutData, LocalStorage.setItem, LocalStorage.getItem.
  rewrite Hq. cbn [LocalStorage.quotaExceeded LocalStorage.items].
  split; [by rewrite insert_insert_eq|].
  by rewrite lookup_insert_eq.
Qed.

Lemma setCachedScoutData_overwrites_witness :
  setCachedScoutData "42" (Js.VNum 2) 10 11
    (setCachedScoutData "42" (Js.VNum 1) 0 1 SampleCache.empty)
  = setCachedScoutData "42" (Js.VNum 2) 10 11 SampleCache.empty
  ∧ LocalStorage.getItem (getCacheKey "42")
      (setCachedScoutData "42" (Js.VNum 2) 10 11
         (setCachedScoutData "42" (Js.VNum 1) 0 1 SampleCache.empty))
    = Some (Js.JSON_stringify
              (Js.VObj [ ("scoutData", Js.VNum 2);
                         ("expires", Js.VNum (10 + expiry_ms));
                         ("cached", Js.VNum 11) ])).
Proof.
  apply (setCachedScoutData_overwrites "42" (Js.VNum 1) (Js.VNum 2)
           0 1 10 11 SampleCache.empty).
  reflexivity.
Defined.

(** ** Clearing the cache and the popup messages *)

Section ClearFacts.

Lemma elem_of_List_filter {A} (p : A → bool) (l : list A) (x : A) :
  x ∈ List.filter p l ↔ x ∈ l ∧ p x = true.
Proof. rewrite !list_elem_of_In. apply filter_In. Qed.

Lemma NoDup_List_filter {A} (p : A → bool) (l : list A) :
  NoDup l → NoDup (List.filter p l).
Proof.
  induction 1 as [|x l Hx Hl IH]; [constructor|].
  simpl. destruct (p x); [|done].
  constructor; [|done]. rewrite elem_of_List_filter. by intros [? _].
Qed.

Lemma List_filter_nil {A} (p : A → bool) (l : list A) :
  (∀ x, x ∈ l → p x = false) → List.filter p l = [].
Proof.
  induction l as [|x l IH]; [done|]. intros H.
  simpl. rewrite (H x) by left. apply IH. intros y Hy. apply H. by right.
Qed.

Lemma elem_of_storageKeys (st : LocalStorage.t) (k : string) :
  k ∈ storageKeys st ↔ is_Some (LocalStorage.getItem k st).
Proof.
  unfold storageKeys, LocalStorage.getItem. rewrite list_elem_of_fmap. split.
  - intros ([k' v] & -> & Hin). apply elem_of_map_to_list in Hin. by exists v.
  - intros [v Hv]. exists (k, v). split; [done|]. by apply elem_of_map_to_list.
Qed.

Lemma elem_of_cacheKeysOf (st : LocalStorage.t) (k : string) :
  k ∈ cacheKeysOf st
  ↔ is_Some (LocalStorage.getItem k st) ∧ startsWith k CACHE_KEY_PREFIX = true.
Proof.
  unfold cacheKeysOf. by rewrite elem_of_List_filter, elem_of_storageKeys.
Qed.

Lemma cacheKeysOf_NoDup (st : LocalStorage.t) : NoDup (cacheKeysOf st).
Proof. apply NoDup_List_filter, NoDup_fst_map_to_list. Qed.

Lemma removeItems_getItem (l : list string) (st : LocalStorage.t) (k : string) :
  LocalStorage.getItem k
    (fold_left (fun s key => LocalStorage.removeItem key s) l st)
  = if decide (k ∈ l) then None else LocalStorage.getItem k st.
Proof.
  revert st. induction l as [|a l IH]; intros st; [done|].
  cbn [fold_left]. rewrite IH.
  unfold LocalStorage.getItem, LocalStorage.removeItem. cbn [LocalStorage.items].
  destruct (decide (k = a)) as [->|Hne].
  - rewrite lookup_delete_eq, (decide_True (P := a ∈ a :: l)) by left.
    by case_decide.
  - rewrite lookup_delete_ne by done.
    destruct (decide (k ∈ l)) as [Hin|Hnin].
    + by rewrite decide_True by by right.
    + rewrite decide_False; [done|].
      intros [?|?]%elem_of_cons; done.
Qed.

Lemma removeItems_quota (l : list string) (st : LocalStorage.t) :
  LocalStorage.quotaExceeded
    (fold_left (fun s key => LocalStorage.removeItem key s) l st)
  = LocalStorage.quotaExceeded st.
Proof. revert st. induction l as [|a l IH]; intros st; [done|]. simpl. by rewrite IH. Qed.

Lemma removeItems_size (l : list string) (st : LocalStorage.t) :
  NoDup l →
  (∀ k, k ∈ l → is_Some (LocalStorage.getItem k st)) →
  (size (LocalStorage.items
           (fold_left (fun s key => LocalStorage.removeItem key s) l st))
   + length l = size (LocalStorage.items st))%nat.
Proof.
  intros Hnd. revert st.
  induction Hnd as [|a l Ha Hnd IH]; intros st Hin; [simpl; lia|].
  cbn [fold_left length].
  assert (Hrest : ∀ k, k ∈ l →
            is_Some (LocalStorage.getItem k (LocalStorage.removeItem a st))).
  { intros k Hk. unfold LocalStorage.getItem, LocalStorage.removeItem.
    cbn [LocalStorage.items]. rewrite lookup_delete_ne.
    - apply Hin. by right.
    - intros ->. done. }
  specialize (IH (LocalStorage.removeItem a st) Hrest).
  destruct (Hin a) as [v Hv]; [left|].
  unfold LocalStorage.getItem in Hv.
  assert (Hsize : size (LocalStorage.items (LocalStorage.removeItem a st))
                  = pred (size (LocalStorage.items st))).
  { unfold LocalStorage.removeItem. cbn [LocalStorage.items].
    by rewrite map_size_delete, Hv. }
  assert (size (LocalStorage.items st) ≠ 0%nat).
  { apply map_size_ne_0_lookup_2 with a. by exists v. }
  lia.
Qed.

(** After clearing, no key of the name space is left. *)
Lemma cacheKeysOf_cleared (st : LocalStorage.t) :
  cacheKeysOf (snd (clearScoutCache st)) = [].
Proof.
  unfold cacheKeysOf. apply List_filter_nil. intros k Hk.
  apply elem_of_storageKeys in Hk as [v Hv].
  unfold clearScoutCache in Hv. cbn [snd] in Hv.
  rewrite removeItems_getItem in Hv.
  case_decide as Hin; [done|].
  apply not_true_is_false. intros Hp. apply Hin.
  apply elem_of_cacheKeysOf. split; [by exists v|done].
Qed.

Lemma totalSizeOf_nil (item_length : Js.text → Z) (st : LocalStorage.t) :
  totalSizeOf item_length [] st = 0.
Proof. reflexivity. Qed.

(** What is found under a key after clearing. *)
Lemma clearScoutCache_getItem (st : LocalStorage.t) (k : string) :
  LocalStorage.getItem k (snd (clearScoutCache st))
  = if startsWith k CACHE_KEY_PREFIX then None else LocalStorage.getItem k st.
Proof.
  unfold clearScoutCache. cbn [snd]. rewrite removeItems_getItem.
  destruct (decide (k ∈ cacheKeysOf st)) as [Hin|Hnin].
  - apply elem_of_cacheKeysOf in Hin as [_ ->]. done.
  - destruct (startsWith k CACHE_KEY_PREFIX) eqn:Hp; [|done].
    destruct (LocalStorage.getItem k st) as [v|] eqn:Hv; [|done].
    exfalso. apply Hnin, elem_of_cacheKeysOf. split; [by exists v|done].
Qed.

End ClearFacts.

(** X7: [clearScoutCache] removes exactly the items whose key begins with
    the cache prefix and keeps every other item as it was; the number it
    returns is the number of items that disappeared. *)
Theorem clearScoutCache_removes_namespace (st : LocalStorage.t) :
  let cleared := clearScoutCache st in
  (∀ k, LocalStorage.getItem k (snd cleared)
        = if startsWith k CACHE_KEY_PREFIX then None
          else LocalStorage.getItem k st)
  ∧ fst cleared
    = Z.of_nat (length (storageKeys st))
      - Z.of_nat (length (storageKeys (snd cleared)))
  ∧ LocalStorage.quotaExceeded (snd cleared) = LocalStorage.quotaExceeded st.
Proof.
  cbn zeta. split; [apply clearScoutCache_getItem|].
  unfold clearScoutCache. cbn [fst snd].
  split; [|apply removeItems_quota].
  - unfold storageKeys. rewrite !length_fmap, !length_map_to_list.
    pose proof (removeItems_size (cacheKeysOf st) st (cacheKeysOf_NoDup st)) as H.
    rewrite <- H; [lia|].
    intros k Hk. by apply elem_of_cacheKeysOf in Hk as [? _].
Qed.

(** X8: after [clearScoutCache] every cache lookup misses, for every
    player and at every time, and clearing again removes nothing and
    returns 0. *)
Theorem clearScoutCache_empties_cache (st : LocalStorage.t) (pid : string)
    (now : Z) :
  let st' := snd (clearScoutCache st) in
  getCachedScoutData pid now st' = (Js.VNull, st')
  ∧ clearScoutCache st' = (0, st').
Proof.
  cbn zeta. split.
  - unfold getCachedScoutData.
    by rewrite clearScoutCache_getItem, getCacheKey_prefixed.
  - unfold clearScoutCache at 1. by rewrite cacheKeysOf_cleared.
Qed.

(** X9: the popup messages compose: the count [CLEAR_CACHE] answers with
    is the [totalCached] that [GET_CACHE_STATS] reported just before, a
    [GET_CACHE_STATS] leaves the store alone, and after a [CLEAR_CACHE]
    the statistics are zero entries, zero bytes and no keys. *)
Theorem messages_stats_then_clear (item_length : Js.text → Z)
    (stats_req clear_req : Js.value) (st : LocalStorage.t) :
  request_type stats_req = Js.VStr "GET_CACHE_STATS" →
  request_type clear_req = Js.VStr "CLEAR_CACHE" →
  let before := onMessage item_length stats_req st in
  let cleared := onMessage item_length clear_req (snd before) in
  let after := onMessage item_length stats_req (snd cleared) in
  snd before = st
  ∧ (∃ n size keys,
       fst before
       = Some (Js.VObj [("stats",
                 Js.VObj [ ("totalCached", Js.VNum n);
                           ("totalSize", Js.VNum size);
                           ("cacheKeys", Js.VArr keys) ])])
       ∧ fst cleared = Some (Js.VObj [("clearedCount", Js.VNum n)]))
  ∧ after
    = (Some (Js.VObj [("stats",
               Js.VObj [ ("totalCached", Js.VNum 0);
                         ("totalSize", Js.VNum 0);
                         ("cacheKeys", Js.VArr []) ])]),
       snd (clearScoutCache st)).
Proof.
  intros Hstats Hclear. cbn zeta.
  unfold onMessage. rewrite Hstats, Hclear.
  change (is_string (Js.VStr "GET_CACHE_STATS") "GET_CACHE_STATS") with true.
  change (is_string (Js.VStr "CLEAR_CACHE") "GET_CACHE_STATS") with false.
  change (is_string (Js.VStr "CLEAR_CACHE") "CLEAR_CACHE") with true.
  cbn [fst snd].
  pose proof (cacheKeysOf_cleared st) as Hkeys.
  assert (Hcount : fst (clearScoutCache st)
                   = Z.of_nat (length (cacheKeysOf st))) by done.
  destruct (clearScoutCache st) as [n st'] eqn:Hc. cbn [fst snd] in *.
  split; [done|]. split.
  - eexists _, _, _. split; [reflexivity|]. by rewrite Hcount.
  - by rewrite Hkeys.
Qed.

Lemma messages_stats_then_clear_witness :
  fst (onMessage (fun _ => 120)
         (Js.VObj [("type", Js.VStr "GET_CACHE_STATS")])
         (snd (onMessage (fun _ => 120)
                 (Js.VObj [("type", Js.VStr "CLEAR_CACHE")])
                 (snd (onMessage (fun _ => 120)
                         (Js.VObj [("type", Js.VStr "GET_CACHE_STATS")])
                         SampleMore.two_players)))))
  = Some (Js.VObj [("stats",
            Js.VObj [ ("totalCached", Js.VNum 0);
                      ("totalSize", Js.VNum 0);
                      ("cacheKeys", Js.VArr []) ])]).
Proof.
  pose proof (messages_stats_then_clear (fun _ => 120)
                (Js.VObj [("type", Js.VStr "GET_CACHE_STATS")])
                (Js.VObj [("type", Js.VStr "CLEAR_CACHE")])
                SampleMore.two_players eq_refl eq_refl) as (_ & _ & H).
  cbn zeta in H. by rewrite H.
Defined.

(** ** Parser *)

Section ParserMoreFacts.

Import Dom.

Lemma dd_skills_entry (dd : located) (s : string) :
  s ∈ dd_skills dd →
  JsString.truthy s = true ∧ JsString.trim s = s ∧ generic_entry s = false.
Proof.
  unfold dd_skills. rewrite elem_of_List_filter.
  intros [Hin [Ht Hg]%andb_true_iff].
  split; [done|]. split; [|by apply negb_true_iff].
  apply list_elem_of_In, in_map_iff in Hin as (li & <- & _).
  apply trim_idem.
Qed.

Lemma textContent_stars (n : nat) : textContent (Sample.stars n) = "".
Proof.
  unfold Sample.stars. cbn [textContent].
  induction n as [|n IH]; [done|].
  cbn [repeat fold_right]. by rewrite IH.
Qed.

Lemma filter_skill_items (anc : list string) (skills : list string) :
  List.filter (matches (SelDescendant "ul" "li"))
    (map (fun s => Located ("ul" :: anc) (Sample.li [Text s])) skills)
  = map (fun s => Located ("ul" :: anc) (Sample.li [Text s])) skills.
Proof.
  induction skills as [|s skills IH]; [done|].
  cbn [map]. rewrite filter_cons_true by reflexivity. by rewrite IH.
Qed.

Lemma filter_cons_app {A} (p : A → bool) (x : A) (l : list A) :
  List.filter p (x :: l) = (if p x then [x] else []) ++ List.filter p l.
Proof. simpl. by destruct (p x). Qed.

(** The texts of the list items of a sample block. *)
Lemma dd_skills_block (anc : list string) (title : string) (n : nat)
    (skills : list string) :
  dd_skills (Located anc (Sample.block title n skills))
  = List.filter (fun t => JsString.truthy t && negb (generic_entry t))
      (map JsString.trim (title :: skills)).
Proof.
  unfold dd_skills, querySelectorAll.
  cbn [ancestors element]. rewrite descendants_block. cbn [app].
  rewrite filter_cons_false by reflexivity.
  rewrite filter_cons_true by reflexivity.
  rewrite filter_cons_false by reflexivity.
  rewrite filter_cons_true by reflexivity.
  rewrite filter_cons_false by reflexivity.
  rewrite List.filter_app, filter_repeat.
  replace (matches (SelDescendant "ul" "li") _) with false by reflexivity.
  cbn [app]. rewrite filter_skill_items.
  cbn [map element]. unfold Sample.li. cbn [textContent fold_right].
  rewrite textContent_stars, !string_app_empty.
  rewrite !(filter_cons_app _ (JsString.trim title)). f_equal.
  rewrite filter_cons_false by reflexivity.
  rewrite map_map. cbn [textContent fold_right element].
  f_equal. apply map_ext. intros s. by rewrite !string_app_empty.
Qed.

Lemma no_dd_below_block (anc : list string) (title : string) (n : nat)
    (skills : list string) :
  List.filter (matches (SelTag "dd"))
    (descendants anc (Sample.block title n skills)) = [].
Proof.
  rewrite descendants_block. cbn [app].
  rewrite !filter_cons_false by reflexivity.
  rewrite List.filter_app, filter_repeat.
  replace (matches _ _) with false by reflexivity.
  cbn [app]. induction skills as [|s skills IH]; [done|].
  cbn [map]. by rewrite filter_cons_false by reflexivity.
Qed.

Lemma dds_full_report (n : nat) (hs : list string) (m : nat) (ls : list string) :
  dds (SampleMore.full_report n hs m ls)
  = [ Located ["dl"; "body"; "html"] (Sample.block "Highest potential" n hs);
      Located ["dl"; "body"; "html"] (Sample.block "Lowest potential" m ls) ].
Proof.
  unfold dds, document_querySelectorAll, SampleMore.full_report, Sample.report.
  cbn [is_element descendants flat_map app].
  change (is_element (Sample.block "Highest potential" n hs)) with true.
  change (is_element (Sample.block "Lowest potential" m ls)) with true.
  cbn iota. rewrite !app_nil_r. cbn [app].
  rewrite !filter_cons_false by reflexivity.
  rewrite filter_cons_true by reflexivity.
  rewrite List.filter_app, no_dd_below_block. cbn [app].
  rewrite filter_cons_true by reflexivity.
  by rewrite no_dd_below_block.
Qed.

End ParserMoreFacts.

(** X10: every skill name in a parsed record, in either list, is
    non-empty, carries no surrounding white space and contains neither
    "potential" nor "youth training speed" in any letter case. *)
Theorem parse_skills_clean (doc : Dom.node) (s : string) :
  s ∈ highest (parseScoutHTML doc) ∨ s ∈ lowest (parseScoutHTML doc) →
  s ≠ "" ∧ JsString.trim s = s ∧ generic_entry s = false.
Proof.
  assert (Hinv : ∀ l acc,
    (∀ x, x ∈ highest acc ∨ x ∈ lowest acc →
          JsString.truthy x = true ∧ JsString.trim x = x ∧ generic_entry x = false) →
    ∀ x, x ∈ highest (fold_left parse_step l acc)
         ∨ x ∈ lowest (fold_left parse_step l acc) →
         JsString.truthy x = true ∧ JsString.trim x = x ∧ generic_entry x = false).
  { induction l as [|d l IH]; intros acc Hacc; [done|].
    cbn [fold_left]. apply IH. intros x.
    rewrite parse_step_heading. destruct (dd_heading d); cbn [highest lowest].
    - intros [Hx|Hx]; [by apply (dd_skills_entry d)|apply Hacc; by right].
    - intros [Hx|Hx]; [apply Hacc; by left|by apply (dd_skills_entry d)].
    - apply Hacc. }
  intros Hs.
  destruct (Hinv (dds doc) emptyScout) with (x := s) as (Ht & Htrim & Hg).
  - intros x [Hx|Hx]; by apply elem_of_nil in Hx.
  - exact Hs.
  - split; [|done]. by intros ->.
Qed.

Lemma parse_skills_clean_witness :
  "Stamina" ≠ "" ∧ JsString.trim "Stamina" = "Stamina"
  ∧ generic_entry "Stamina" = false.
Proof.
  apply (parse_skills_clean Sample.two_highest "Stamina").
  left. vm_compute. left.
Defined.

(** X11: each rating is parsed on its own: when no block is treated as a
    "highest" one, [highest] is empty and [starsHigh] absent, whatever the
    "lowest" blocks hold, and the same with the two ratings exchanged. *)
Theorem parse_rating_default (h : heading) (doc : Dom.node) :
  h ≠ Unrecognised →
  Forall (fun d => dd_heading d ≠ h) (dds doc) →
  skills_of h (parseScoutHTML doc) = [] ∧ stars_of h (parseScoutHTML doc) = None.
Proof.
  intros Hh Hall.
  destruct (parse_loop_keeps h (dds doc) emptyScout Hh Hall) as [Hs Hn].
  unfold parseScoutHTML. fold (dds doc). rewrite Hs, Hn. by destruct h.
Qed.

Lemma parse_rating_default_witness :
  skills_of Lowest (parseScoutHTML Sample.two_highest) = []
  ∧ stars_of Lowest (parseScoutHTML Sample.two_highest) = None.
Proof.
  apply parse_rating_default.
  - discriminate.
  - repeat constructor; vm_compute; discriminate.
Defined.

(** X12: a report of the expected shape is read back in full: from a
    "Highest potential" block with [n] lit stars and skills [hs] and a
    "Lowest potential" block with [m] lit stars and skills [ls], the parser
    returns the two star counts and the two skill lists, each skill
    trimmed, with empty and generic entries left out. *)
Theorem parse_full_report (n m : nat) (hs ls : list string) :
  let keep := List.filter
                (fun t => JsString.truthy t && negb (generic_entry t)) in
  parseScoutHTML (SampleMore.full_report n hs m ls)
  = mkScout (keep (map JsString.trim hs)) (keep (map JsString.trim ls))
      (Some (Z.of_nat n)) (Some (Z.of_nat m)).
Proof.
  cbn zeta. unfold parseScoutHTML.
  fold (dds (SampleMore.full_report n hs m ls)).
  rewrite dds_full_report. cbn [fold_left].
  rewrite !parse_step_heading. unfold dd_heading.
  rewrite !dd_title_block.
  replace (JsString.includes (JsString.toLowerCase
             (JsString.trim "Highest potential")) "highest")
    with true by reflexivity.
  replace (JsString.includes (JsString.toLowerCase
             (JsString.trim "Lowest potential")) "highest")
    with false by reflexivity.
  replace (JsString.includes (JsString.toLowerCase
             (JsString.trim "Lowest potential")) "lowest")
    with true by reflexivity.
  cbn [highest lowest starsHigh starsLow emptyScout].
  rewrite !dd_skills_block, !dd_litCount_block.
  cbn [map]. by rewrite !filter_cons_false by reflexivity.
Qed.

(** ** Fetcher *)

(** X13: a call of [fetchScout] sends exactly one request, to the scout
    URL of the player, when the cache lookup misses, and none when it
    hits, whatever the server answers; on a hit it resolves to the cached
    value and leaves the store as the lookup left it. *)
Theorem fetchScout_requests (server : string → response) (pid : string)
    (clk : Clock) (w : World) :
  let lookup := getCachedScoutData pid (at_lookup clk) (localStorage w) in
  let outcome := fetchScout server pid clk w in
  requests (snd outcome)
  = requests w ++ (if Js.truthy (fst lookup) then [] else [scoutUrl pid])
  ∧ (Js.truthy (fst lookup) = true →
     outcome = (Fulfilled (fst lookup), mkWorld (snd lookup) (requests w))).
Proof.
  cbn zeta. unfold fetchScout.
  destruct (getCachedScoutData pid (at_lookup clk) (localStorage w))
    as [cachedData st].
  cbn [fst snd]. destruct (Js.truthy cachedData).
  - cbn [snd requests]. by rewrite app_nil_r.
  - split; [|done].
    destruct (server (scoutUrl pid)) as [|status body]; [done|].
    by destruct (response_ok status).
Qed.

(** X14: fetching one player never touches the cache entry of another:
    whatever the server answers, a later lookup for a different player
    returns what it would have returned before. *)
Theorem fetchScout_other_player (server : string → response)
    (pid pid' : string) (clk : Clock) (now : Z) (w : World) :
  pid ≠ pid' →
  fst (getCachedScoutData pid' now
         (localStorage (snd (fetchScout server pid clk w))))
  = fst (getCachedScoutData pid' now (localStorage w)).
Proof.
  intros Hne. apply getCachedScoutData_value.
  assert (Hkey : getCacheKey pid' ≠ getCacheKey pid).
  { intros H. by apply Hne, eq_sym, getCacheKey_inj. }
  unfold fetchScout.
  pose proof (getCachedScoutData_other pid (at_lookup clk) (localStorage w)
                (getCacheKey pid') Hkey) as Hlookup.
  destruct (getCachedScoutData pid (at_lookup clk) (localStorage w))
    as [cachedData st].
  cbn [snd] in Hlookup.
  destruct (Js.truthy cachedData); [done|].
  destruct (server (scoutUrl pid)) as [|status body]; [done|].
  destruct (response_ok status); cbn [negb snd localStorage]; [|done].
  by rewrite setCachedScoutData_other.
Qed.

Lemma fetchScout_other_player_witness :
  fst (getCachedScoutData "8" 1700000000500
         (localStorage
            (snd (fetchScout SampleCache.server "7"
                    (mkClock 1700000000100 1700000000200 1700000000200)
                    (mkWorld SampleMore.two_players [])))))
  = fst (getCachedScoutData "8" 1700000000500 SampleMore.two_players).
Proof.
  apply (fetchScout_other_player SampleCache.server "7" "8"). discriminate.
Defined.

(** X15: failures are not cached: when the lookup misses and the request
    fails (the network is down, or the status is outside 200..299), the
    call is rejected with that failure and stores nothing, so the next
    call sends the request again. *)
Theorem fetchScout_failure_retried (server : string → response) (pid : string)
    (clk clk' : Clock) (w : World) :
  uncached pid (at_lookup clk) (localStorage w) →
  (match server (scoutUrl pid) with
   | NetworkFailure => True
   | HttpResponse status _ => response_ok status = false
   end) →
  let first := fetchScout server pid clk w in
  let second := fetchScout server pid clk' (snd first) in
  fst first = (match server (scoutUrl pid) with
               | NetworkFailure => RejectedNetwork
               | HttpResponse status _ => RejectedHttp status
               end)
  ∧ fst second = fst first
  ∧ requests (snd second) = requests w ++ [scoutUrl pid; scoutUrl pid].
Proof.
  intros Hmiss Hfail. cbn zeta.
  pose proof (uncached_persists pid (at_lookup clk) (at_lookup clk')
                (localStorage w) Hmiss) as Hmiss'.
  unfold fetchScout, uncached in *.
  destruct (getCachedScoutData pid (at_lookup clk) (localStorage w))
    as [cachedData st].
  cbn [fst snd] in *. rewrite Hmiss.
  destruct (server (scoutUrl pid)) as [|status body] eqn:Hsrv.
  - cbn [fst snd localStorage requests].
    destruct (getCachedScoutData pid (at_lookup clk') st) as [cachedData' st'].
    cbn [fst snd] in *. rewrite Hmiss'.
    cbn [fst snd localStorage requests]. by rewrite <- app_assoc.
  - rewrite Hfail. cbn [negb fst snd localStorage requests].
    destruct (getCachedScoutData pid (at_lookup clk') st) as [cachedData' st'].
    cbn [fst snd] in *. rewrite Hmiss'.
    cbn [negb fst snd localStorage requests]. by rewrite <- app_assoc.
Qed.

Lemma fetchScout_failure_retried_witness :
  requests (snd (fetchScout SampleMore.failing_server "7"
                   (mkClock 20 20 20)
                   (snd (fetchScout SampleMore.failing_server "7"
                           (mkClock 10 10 10)
                           (mkWorld SampleCache.empty [])))))
  = [scoutUrl "7"; scoutUrl "7"].
Proof.
  apply (fetchScout_failure_retried SampleMore.failing_server "7"
           (mkClock 10 10 10) (mkClock 20 20 20)
           (mkWorld SampleCache.empty [])).
  - reflexivity.
  - reflexivity.
Defined.

(** X16: a refused write does not fail the fetch: when the lookup misses,
    the server answers with a success status and the storage refuses
    writes, the call still resolves to the parsed record, but nothing is
    stored and the next call sends the request again. *)
Theorem fetchScout_quota_exceeded (server : string → response) (pid : string)
    (clk clk' : Clock) (w : World) (status : Z) (body : Dom.node) :
  uncached pid (at_lookup clk) (localStorage w) →
  server (scoutUrl pid) = HttpResponse status body →
  response_ok status = true →
  LocalStorage.quotaExceeded (localStorage w) = true →
  let first := fetchScout server pid clk w in
  let second := fetchScout server pid clk' (snd first) in
  fst first = Fulfilled (value_of_record (parseScoutHTML body))
  ∧ localStorage (snd first)
    = snd (getCachedScoutData pid (at_lookup clk) (localStorage w))
  ∧ fst second = Fulfilled (value_of_record (parseScoutHTML body))
  ∧ requests (snd second) = requests w ++ [scoutUrl pid; scoutUrl pid].
Proof.
  intros Hmiss Hsrv Hok Hq. cbn zeta.
  pose proof (uncached_persists pid (at_lookup clk) (at_lookup clk')
                (localStorage w) Hmiss) as Hmiss'.
  pose proof (getCachedScoutData_quota pid (at_lookup clk) (localStorage w))
    as Hq'.
  rewrite Hq in Hq'.
  unfold fetchScout, uncached in *.
  destruct (getCachedScoutData pid (at_lookup clk) (localStorage w))
    as [cachedData st].
  cbn [fst snd] in *. rewrite Hmiss, Hsrv, Hok.
  cbn [negb fst snd localStorage requests].
  assert (Hset : ∀ v t tc, setCachedScoutData pid v t tc st = st).
  { intros v t tc. unfold setCachedScoutData, LocalStorage.setItem.
    by rewrite Hq'. }
  rewrite Hset.
  destruct (getCachedScoutData pid (at_lookup clk') st) as [cachedData' st'].
  cbn [fst snd] in *. rewrite Hmiss'.
  cbn [negb fst snd localStorage requests]. by rewrite <- app_assoc.
Qed.

Lemma fetchScout_quota_exceeded_witness :
  fst (fetchScout SampleCache.server "7" (mkClock 10 10 10)
         (mkWorld (LocalStorage.mk ∅ true) []))
  = Fulfilled (value_of_record (parseScoutHTML (Sample.lit_stars 3))).
Proof.
  apply (fetchScout_quota_exceeded SampleCache.server "7"
           (mkClock 10 10 10) (mkClock 20 20 20)
           (mkWorld (LocalStorage.mk ∅ true) []) 200 (Sample.lit_stars 3));
    reflexivity.
Defined.

(** ** Flag placement *)

Section FlagMoreFacts.

Local Open Scope nat_scope.

Lemma getFlagCells_in_range (r : Row) (j : nat) :
  j ∈ getFlagCells r → j < length r.
Proof.
  unfold getFlagCells. destruct (4 <=? length r) eqn:Hlen.
  - apply Nat.leb_le in Hlen. intros Hin.
    repeat (apply elem_of_cons in Hin as [->|Hin]; [lia|]).
    by apply elem_of_nil in Hin.
  - intros Hin%elem_of_take_elem.
    apply elem_of_positions in Hin as (_ & x & Hx & _).
    rewrite Nat.sub_0_r in Hx. by apply lookup_lt_Some in Hx.
Qed.

Lemma flag_colour_flagImg (c : color) : flag_colour (flagImg c) = Some c.
Proof. by destruct c. Qed.

Lemma flat_map_ext_in {A B} (f g : A → list B) (l : list A) :
  (∀ x, x ∈ l → f x = g x) → flat_map f l = flat_map g l.
Proof.
  induction l as [|x l IH]; [done|]. intros H.
  simpl. rewrite (H x) by left. f_equal. apply IH.
  intros y Hy. apply H. by right.
Qed.

Lemma flat_map_marked {A B} `{EqDecision A} (c : B) (l1 l2 : list A) :
  NoDup (l1 ++ l2) →
  flat_map (fun j => if decide (j ∈ l1) then [c] else []) (l1 ++ l2)
  = repeat c (length l1).
Proof.
  intros Hnd. apply NoDup_app in Hnd as (_ & Hdisj & _).
  rewrite flat_map_app.
  assert (H1 : flat_map (fun j => if decide (j ∈ l1) then [c] else []) l1
               = repeat c (length l1)).
  { rewrite (flat_map_ext_in _ (fun _ => [c]) l1).
    - clear. induction l1 as [|x l1 IH]; [done|]. simpl. by rewrite IH.
    - intros x Hx. by rewrite decide_True. }
  assert (H2 : flat_map (fun j => if decide (j ∈ l1) then [c] else []) l2 = []).
  { rewrite (flat_map_ext_in _ (fun _ => []) l2).
    - clear. by induction l2.
    - intros x Hx. rewrite decide_False; [done|].
      intros Hx1. by apply (Hdisj x). }
  by rewrite H1, H2, app_nil_r.
Qed.

(** The flags found in a row after a placement, for any row. *)
Lemma flagsOf_placeRow_any (c : color) (n : nat) (r : Row) :
  flagsOf (placeRow c n r)
  = repeat c (Nat.min n (length (getFlagCells r))).
Proof.
  unfold flagsOf. rewrite getFlagCells_placeRow.
  set (cells := getFlagCells r).
  rewrite (flat_map_ext_in _
             (fun j => if decide (j ∈ take n cells) then [c] else [])).
  - assert (E : ∀ F : nat → list color,
               flat_map F cells = flat_map F (take n cells ++ drop n cells))
      by (intros F; by rewrite take_drop).
    rewrite E, flat_map_marked.
    + by rewrite length_take.
    + rewrite take_drop. apply getFlagCells_NoDup.
  - intros j Hj. rewrite placeRow_lookup. fold cells.
    destruct (r !! j) as [x|] eqn:Hx.
    + simpl. unfold cellAfter.
      destruct (decide (j ∈ take n cells)); simpl.
      * by rewrite flag_colour_flagImg.
      * by rewrite decide_True.
    + apply getFlagCells_in_range in Hj.
      apply lookup_ge_None in Hx. lia.
Qed.

Lemma instruction_ext (hi hi' lo lo' : list string) (sh sl : option Z)
    (k : string) :
  (k ∈ norm <$> hi ↔ k ∈ norm <$> hi') →
  (k ∈ norm <$> lo ↔ k ∈ norm <$> lo') →
  instruction hi lo sh sl k = instruction hi' lo' sh sl k.
Proof.
  intros Hhi Hlo. unfold instruction.
  by rewrite (bool_decide_ext _ _ Hhi), (bool_decide_ext _ _ Hlo).
Qed.

Lemma positions_length {A} (p : A → bool) (l : list A) (i : nat) :
  length (positions p i l) ≤ length l.
Proof.
  revert i. induction l as [|y l IH]; intros i; simpl; [done|].
  rewrite length_app. specialize (IH (S i)).
  destruct (p y); simpl; lia.
Qed.

(** Positions are listed from left to right. *)
Lemma positions_increasing {A} (p : A → bool) (l : list A) (i : nat)
    (a b j1 j2 : nat) :
  positions p i l !! a = Some j1 → positions p i l !! b = Some j2 →
  a < b → j1 < j2.
Proof.
  revert i a b. induction l as [|y l IH]; intros i a b; simpl; [done|].
  destruct (p y); simpl; [|apply IH].
  intros Ha Hb Hab. destruct b as [|b]; [lia|]. simpl in Hb.
  destruct a as [|a]; simpl in Ha.
  - injection Ha as <-.
    apply list_elem_of_lookup_2, elem_of_positions in Hb. lia.
  - apply (IH (S i) a b); [done|done|lia].
Qed.

Lemma getFlagCells_length (r : Row) : length (getFlagCells r) ≤ 3.
Proof.
  unfold getFlagCells. destruct (4 <=? length r); [simpl; lia|].
  rewrite length_take. lia.
Qed.

End FlagMoreFacts.

(** X17: [getFlagCells] of a row of four or more cells is its 2nd, 3rd
    and 4th cell, in this order; of a shorter row it is exactly the cells
    whose width is 7 or 6, each once, from left to right.  In both cases
    it holds at most three cells, all different and all inside the row. *)
Theorem getFlagCells_bounds (r : Row) :
  (length (getFlagCells r) ≤ 3)%nat
  ∧ NoDup (getFlagCells r)
  ∧ (∀ j, j ∈ getFlagCells r → (j < length r)%nat)
  ∧ if (4 <=? length r)%nat then getFlagCells r = [1; 2; 3]%nat
    else (∀ j, j ∈ getFlagCells r
               ↔ ∃ x, r !! j = Some x ∧ width_6_or_7 x = true)
         ∧ (∀ a b j1 j2,
              getFlagCells r !! a = Some j1 → getFlagCells r !! b = Some j2 →
              (a < b)%nat → (j1 < j2)%nat).
Proof.
  split; [apply getFlagCells_length|]. split; [apply getFlagCells_NoDup|].
  split; [apply getFlagCells_in_range|].
  unfold getFlagCells. destruct (4 <=? length r)%nat eqn:Hlen; [done|].
  apply Nat.leb_gt in Hlen.
  pose proof (positions_length width_6_or_7 r 0).
  rewrite take_ge by lia. split.
  - intros j. rewrite elem_of_positions, Nat.sub_0_r.
    split; [by intros [_ H']|]. intros H'. split; [lia|done].
  - apply positions_increasing.
Qed.

(** X18: [setFlagsInCells] on the flag cells of a row leaves exactly
    [min(count, number of flag cells)] flags of the given colour in them,
    hence never more than three, whatever the cells held before: a count
    beyond the available cells is cut off. *)
Theorem setFlagsInCells_count (c : color) (count : nat) (r : Row) :
  let r' := setFlagsInCells (getFlagCells r) c count r in
  flagsOf r' = repeat c (Nat.min count (length (getFlagCells r)))
  ∧ (length (flagsOf r') ≤ 3)%nat.
Proof.
  cbn zeta. fold (placeRow c count r).
  rewrite flagsOf_placeRow_any. split; [done|].
  rewrite repeat_length.
  pose proof (getFlagCells_length r). lia.
Qed.



(** X20: only the set of normalised skill names matters: two pairs of
    lists that name the same skills up to letter case, surrounding white
    space, order and repetition produce the same table. *)
Theorem applyFlags_skill_lists (nested : bool) (tbl : Table)
    (hi hi' lo lo' : list string) (sh sl : option Z) :
  (∀ k, k ∈ norm <$> hi ↔ k ∈ norm <$> hi') →
  (∀ k, k ∈ norm <$> lo ↔ k ∈ norm <$> lo') →
  applyFlagsToContainer nested tbl hi lo sh sl
  = applyFlagsToContainer nested tbl hi' lo' sh sl.
Proof.
  intros Hhi Hlo. apply list_eq. intros i.
  rewrite !applyFlagsToContainer_lookup.
  destruct (tbl !! i) as [r|]; [|done]. simpl. f_equal.
  unfold rowAfter. destruct (rowName nested r) as [k|]; [|done].
  cbn [mbind option_bind].
  by rewrite (instruction_ext hi hi' lo lo' sh sl k (Hhi k) (Hlo k)).
Qed.

Lemma applyFlags_skill_lists_witness :
  applyFlagsToContainer false SampleTable.passing_tackling
    ["Passing"; "Tackling"] [] (Some 3) None
  = applyFlagsToContainer false SampleTable.passing_tackling
      [" TACKLING"; "passing"; "tackling "] [] (Some 3) None.
Proof.
  apply applyFlags_skill_lists.
  - intros k. vm_compute norm. cbn [fmap list_fmap].
    rewrite !elem_of_cons, !elem_of_nil. tauto.
  - done.
Defined.


(** ** Container scanner and player id *)

Section ScannerFacts.

Lemma started_containers (l : list nat) :
  (imap (fun i c => (c, Z.of_nat i * REQUEST_GAP_MS)) l).*1 = l.
Proof.
  apply list_eq. intros i.
  rewrite list_lookup_fmap, list_lookup_imap. by destruct (l !! i).
Qed.

Lemma elem_of_fold_union (l : list nat) (s : gset nat) (x : nat) :
  x ∈ fold_left (fun s c => s ∪ {[c]}) l s ↔ x ∈ s ∨ x ∈ l.
Proof.
  revert s. induction l as [|a l IH]; intros s; simpl.
  - rewrite elem_of_nil. tauto.
  - rewrite IH, elem_of_union, elem_of_singleton, elem_of_cons. tauto.
Qed.

Lemma processNewContainers_started (cs : list nat) (seen : gset nat) :
  (fst (processNewContainers cs seen)).*1
  = List.filter (fun c => bool_decide (c ∉ seen)) cs.
Proof.
  unfold processNewContainers.
  destruct (List.filter _ cs) as [|c l] eqn:Hnew; [done|].
  cbn [fst]. apply started_containers.
Qed.

Lemma processNewContainers_seen (cs : list nat) (seen : gset nat) (x : nat) :
  x ∈ snd (processNewContainers cs seen) ↔ x ∈ seen ∨ x ∈ cs.
Proof.
  unfold processNewContainers.
  destruct (List.filter _ cs) as [|c l] eqn:Hnew; cbn [snd].
  - split; [by left|]. intros [?|Hx]; [done|].
    destruct (decide (x ∈ seen)) as [?|Hout]; [done|].
    assert (Hin : x ∈ List.filter (fun c => bool_decide (c ∉ seen)) cs).
    { apply elem_of_List_filter. split; [done|]. by apply bool_decide_eq_true. }
    rewrite Hnew in Hin. by apply elem_of_nil in Hin.
  - rewrite elem_of_fold_union, <- Hnew, elem_of_List_filter, bool_decide_eq_true.
    destruct (decide (x ∈ seen)); tauto.
Qed.

Lemma elem_of_started (cs : list nat) (seen : gset nat) (x : nat) :
  x ∈ (fst (processNewContainers cs seen)).*1 ↔ x ∈ cs ∧ x ∉ seen.
Proof.
  by rewrite processNewContainers_started, elem_of_List_filter,
    bool_decide_eq_true.
Qed.

End ScannerFacts.

(** X22: one scan starts work for exactly the containers not yet in the
    set, in page order, the i-th of them with a delay of [i * 250] ms;
    afterwards the set holds every container of the page, and scanning
    the same page again starts nothing and leaves the set as it is. *)
Theorem processNewContainers_scan (containers : list nat) (seen : gset nat) :
  let scan := processNewContainers containers seen in
  (fst scan).*1 = List.filter (fun c => bool_decide (c ∉ seen)) containers
  ∧ (∀ i c delay, fst scan !! i = Some (c, delay) → delay = Z.of_nat i * 250)
  ∧ (∀ c, c ∈ snd scan ↔ c ∈ seen ∨ c ∈ containers)
  ∧ processNewContainers containers (snd scan) = ([], snd scan).
Proof.
  cbn zeta. split; [apply processNewContainers_started|].
  split; [|split; [apply processNewContainers_seen|]].
  - intros i c delay. unfold processNewContainers.
    destruct (List.filter _ containers) as [|c0 l]; [done|]. cbn [fst].
    rewrite list_lookup_imap.
    destruct ((c0 :: l) !! i); [|done]. simpl. by intros [= _ <-].
  - unfold processNewContainers at 1.
    rewrite List_filter_nil; [done|].
    intros c Hc. apply bool_decide_eq_false. intros Hout. apply Hout.
    apply processNewContainers_seen. by right.
Qed.

(** X23: over any sequence of scans of pages whose container lists have
    no repetition, no container is started twice: the containers started
    are, each once, exactly those that occur in some scanned page and
    were not in the set at the beginning, and the set ends holding all of
    them. *)
Theorem scans_start_each_once (snapshots : list (list nat)) (seen : gset nat) :
  Forall NoDup snapshots →
  let all := scans snapshots seen in
  NoDup (fst all).*1
  ∧ (∀ c, c ∈ (fst all).*1
          ↔ ((c ∉ seen) ∧ ∃ page, page ∈ snapshots ∧ c ∈ page))
  ∧ (∀ c, c ∈ snd all
          ↔ (c ∈ seen ∨ ∃ page, page ∈ snapshots ∧ c ∈ page)).
Proof.
  intros Hnd. cbn zeta. revert seen.
  induction Hnd as [|cs later Hcs Hlater IH]; intros seen.
  - simpl. split; [constructor|]. split.
    + intros c. split; [by intros ?%elem_of_nil|].
      by intros (_ & page & ?%elem_of_nil & _).
    + intros c. split; [by left|].
      intros [?|(page & ?%elem_of_nil & _)]; done.
  - cbn [scans].
    pose proof (elem_of_started cs seen) as Hstarted.
    pose proof (processNewContainers_seen cs seen) as Hseen.
    pose proof (processNewContainers_started cs seen) as Hlist.
    destruct (processNewContainers cs seen) as [started seen1].
    cbn [fst snd] in *.
    specialize (IH seen1).
    destruct (scans later seen1) as [started' seen'].
    cbn [fst snd] in *. destruct IH as (IH1 & IH2 & IH3).
    rewrite fmap_app. split; [|split].
    + apply NoDup_app. split; [|split; [|done]].
      * rewrite Hlist. by apply NoDup_List_filter.
      * intros c Hc Hc'. apply IH2 in Hc' as [Hout _].
        apply Hout, Hseen. right. by apply Hstarted in Hc as [? _].
    + intros c. rewrite elem_of_app, Hstarted, IH2, Hseen. split.
      * intros [[Hc Hout]|[Hout (page & Hp & Hc)]].
        -- split; [done|]. exists cs. split; [left|done].
        -- split; [tauto|]. exists page. split; [by right|done].
      * intros [Hout (page & Hp & Hc)].
        apply elem_of_cons in Hp as [->|Hp]; [by left|].
        destruct (decide (c ∈ cs)); [by left|].
        right. split; [tauto|]. by exists page.
    + intros c. rewrite IH3, Hseen. split.
      * intros [[?|Hc]|(page & Hp & Hc)]; [by left| |].
        -- right. exists cs. split; [left|done].
        -- right. exists page. split; [by right|done].
      * intros [?|(page & Hp & Hc)]; [by left; left|].
        apply elem_of_cons in Hp as [->|Hp]; [by left; right|].
        right. by exists page.
Qed.

Lemma scans_start_each_once_witness :
  NoDup (fst (scans [[1; 2; 3]; [2; 3; 4]; [4; 1]]%nat ∅)).*1.
Proof.
  apply (scans_start_each_once [[1; 2; 3]; [2; 3; 4]; [4; 1]]%nat ∅).
  repeat (apply List.Forall_cons; [apply NoDup_ListNoDup; repeat constructor; simpl; intuition lia|]).
  apply List.Forall_nil.
Defined.

(** X24: a player id returned by [getPlayerIdFromContainer] is never
    empty and carries no surrounding white space: it is the trimmed text
    of the first id span of the container; without such a span, or when
    its text is blank, the function returns [null]. *)
Theorem getPlayerIdFromContainer_id (outer : bool) (container : Dom.node) :
  match getPlayerIdFromContainer outer container with
  | Some id =>
      id ≠ "" ∧ JsString.trim id = id
      ∧ ∃ idSpan,
          head (player_id_spans (outer || has_player_id container) container)
          = Some idSpan
          ∧ id = JsString.trim (Dom.textContent idSpan)
  | None =>
      match head (player_id_spans (outer || has_player_id container)
                    container) with
      | Some idSpan => blank (Dom.textContent idSpan) = true
      | None => True
      end
  end.
Proof.
  unfold getPlayerIdFromContainer.
  destruct (head _) as [idSpan|]; [|done].
  destruct (JsString.truthy (JsString.trim (Dom.textContent idSpan))) eqn:Ht.
  - split; [by intros Hid; rewrite Hid in Ht|].
    split; [apply trim_idem|]. by exists idSpan.
  - unfold blank, JsString.trim in *.
    set (l := list_ascii_of_string (Dom.textContent idSpan)) in *.
    assert (Hnil : JsString.trimL l = []).
    { destruct (JsString.trimL l); [done|discriminate]. }
    unfold JsString.trimL in Hnil.
    apply (f_equal (@rev ascii)) in Hnil. rewrite rev_involutive in Hnil.
    simpl in Hnil.
    assert (Hblank : ∀ l', JsString.trimStartL l' = [] →
                           forallb JsString.is_ws l' = true).
    { clear. induction l' as [|c l' IH]; [done|].
      simpl. destruct (JsString.is_ws c); [exact IH|done]. }
    apply Hblank in Hnil. rewrite forallb_rev in Hnil.
    apply Hblank.
    pose proof (trimStartL_clean l) as Hclean.
    destruct (JsString.trimStartL l) as [|c l']; [done|].
    simpl in Hnil, Hclean. by rewrite Hclean in Hnil.
Qed.
